(** * transform_species_csv: a shallow embedding and its properties

    The development follows [src/data/taxa/transform_species_csv.py].

    Modelling choices, all visible in the definitions below:
    - a Python [str] is a [list ascii]; a character is a code point below
      256 (the Latin-1 range), so the whitespace sets of [str.strip] and of
      [int] and the digits accepted by [int] are the ones Python has in
      that range;
    - the decoded input file is the list of its lines, in the order in which
      [for line in f] yields them;
    - [old_to_new_id] is a [gmap Z Z], [used_ids] a [gset Z];
    - [random.randint] reads the next value of a tape of draws; a tape
      describes a run only if every value lies between the bounds of the
      call that consumes it;
    - exceptions are values of [exn]; [print] calls are not modelled. *)

From Stdlib Require Import String Ascii ZArith DecimalString DecimalPos DecimalFacts.
From stdpp Require Import gmap list.

Local Open Scope Z_scope.

(** ** Python strings *)

Module PyStr.

Abbreviation pystr := (list ascii).

(** A string literal of the source. *)
Definition lit (s : string) : pystr := list_ascii_of_string s.

Definition ascii_eqb (a b : ascii) : bool := Ascii.eqb a b.

(** [str.isspace] on one character, for code points below 256:
    TAB..CR, FS..US, space, NEL and NBSP. *)
Definition is_space (c : ascii) : bool :=
  let n := N_of_ascii c in
  ((9 <=? n) && (n <=? 13) || (28 <=? n) && (n <=? 32)
   || (n =? 133) || (n =? 160))%N.

Fixpoint lstrip (s : pystr) : pystr :=
  match s with
  | c :: r => if is_space c then lstrip r else s
  | [] => []
  end.

Definition rstrip (s : pystr) : pystr := reverse (lstrip (reverse s)).

(** [s.strip()] *)
Definition strip (s : pystr) : pystr := lstrip (rstrip s).

(** [s.startswith(p)] *)
Fixpoint startswith (p s : pystr) : bool :=
  match p, s with
  | [], _ => true
  | a :: p', b :: s' => ascii_eqb a b && startswith p' s'
  | _ :: _, [] => false
  end.

(** [sub in s] *)
Fixpoint contains (sub s : pystr) : bool :=
  startswith sub s ||
  match s with
  | [] => false
  | _ :: r => contains sub r
  end.

(** [s.split(sep)] for a separator of one character. *)
Fixpoint split (sep : ascii) (s : pystr) : list pystr :=
  match s with
  | [] => [[]]
  | c :: r =>
      if ascii_eqb c sep then [] :: split sep r
      else match split sep r with
           | h :: t => (c :: h) :: t
           | [] => [[c]]
           end
  end.

(** [s.split(sep, 1)] for a separator of one character: at most one cut. *)
Fixpoint split1 (sep : ascii) (s : pystr) : list pystr :=
  match s with
  | [] => [[]]
  | c :: r =>
      if ascii_eqb c sep then [[]; r]
      else match split1 sep r with
           | h :: t => (c :: h) :: t
           | [] => [[c]]
           end
  end.

(** [sep.join(parts)] *)
Fixpoint join (sep : pystr) (parts : list pystr) : pystr :=
  match parts with
  | [] => []
  | [p] => p
  | p :: rest => p ++ sep ++ join sep rest
  end.

(** [s.replace(old, new)] for a non-empty [old] (every call of the source
    passes a non-empty literal): the text is scanned from the left, a match
    is replaced and the scan resumes behind it, so matches do not overlap.
    [skip] counts the characters of a match that are still to be passed. *)
Fixpoint replace_from (old new : pystr) (skip : nat) (s : pystr) : pystr :=
  match s with
  | [] => []
  | c :: r =>
      match skip with
      | S k => replace_from old new k r
      | O =>
          if startswith old s
          then new ++ replace_from old new (Nat.pred (length old)) r
          else c :: replace_from old new O r
      end
  end.

Definition replace (old new s : pystr) : pystr := replace_from old new O s.

(** [str(n)] for an integer. *)
Definition str_of_int (n : Z) : pystr :=
  list_ascii_of_string (NilZero.string_of_int (Z.to_int n)).

End PyStr.

Import PyStr.

(** ** Exceptions *)

Inductive exn : Type := ValueError | IndexError | KeyError.

Inductive result (A : Type) : Type :=
| Ok (a : A)
| Raise (e : exn).
Arguments Ok {A} a.
Arguments Raise {A} e.

Definition rbind {A B} (r : result A) (k : A -> result B) : result B :=
  match r with
  | Ok a => k a
  | Raise e => Raise e
  end.

(** [except (ValueError, IndexError)] *)
Definition caught (e : exn) : bool :=
  match e with
  | ValueError | IndexError => true
  | KeyError => false
  end.

(** [row[i]] *)
Definition getitem (row : list pystr) (i : nat) : result pystr :=
  match row !! i with
  | Some x => Ok x
  | None => Raise IndexError
  end.

(** [d[k]] on a dict *)
Definition dict_get (d : gmap Z Z) (k : Z) : result Z :=
  match d !! k with
  | Some v => Ok v
  | None => Raise KeyError
  end.

(** ** [int(s)] in base 10 *)

(** The white space that [int] passes over at both ends of its argument,
    for code points below 256: TAB..CR and the space of the C locale, and
    NEL and NBSP, which [int] takes for spaces before it parses. Unlike
    [str.strip] it does not pass over FS..US. *)
Definition is_int_space (c : ascii) : bool :=
  let n := N_of_ascii c in
  ((9 <=? n) && (n <=? 13) || (n =? 32) || (n =? 133) || (n =? 160))%N.

Fixpoint lstrip_by (sp : ascii -> bool) (s : pystr) : pystr :=
  match s with
  | c :: r => if sp c then lstrip_by sp r else s
  | [] => []
  end.

Definition strip_by (sp : ascii -> bool) (s : pystr) : pystr :=
  lstrip_by sp (reverse (lstrip_by sp (reverse s))).

Definition digit_val (c : ascii) : option Z :=
  let n := N_of_ascii c in
  if ((48 <=? n) && (n <=? 57))%N then Some (Z.of_N n - 48) else None.

Definition is_digit (c : ascii) : bool :=
  match digit_val c with
  | Some _ => true
  | None => false
  end.

(** The digits of a literal; a single underscore may stand between two
    digits. [after_digit] tells whether the previous character was one. *)
Fixpoint int_digits (acc : Z) (after_digit : bool) (s : pystr) : option Z :=
  match s with
  | [] => if after_digit then Some acc else None
  | c :: r =>
      match digit_val c with
      | Some d => int_digits (10 * acc + d) true r
      | None =>
          if ascii_eqb c "_" && after_digit then int_digits acc false r
          else None
      end
  end.

(** [sys.get_int_max_str_digits()], which the program leaves at its
    default: a literal of more digits is a [ValueError]. *)
Definition int_max_str_digits : nat := 4300.

Definition count_digits (s : pystr) : nat := length (List.filter is_digit s).

Definition py_int (s : pystr) : result Z :=
  let parsed :=
    match strip_by is_int_space s with
    | c :: r =>
        if ascii_eqb c "-" then Z.opp <$> int_digits 0 false r
        else if ascii_eqb c "+" then int_digits 0 false r
        else int_digits 0 false (c :: r)
    | [] => None
    end in
  match parsed with
  | Some n =>
      if (int_max_str_digits <? count_digits s)%nat then Raise ValueError
      else Ok n
  | None => Raise ValueError
  end.

(** ** [parse_csv_file] *)

Record parser_state : Type := ParserState {
  metadata_lines : list pystr;
  data_rows : list (list pystr);
  header_found : bool
}.

Definition parser_init : parser_state := ParserState [] [] false.

(** ['SPECIES_NR' in line and 'NAME' in line and 'GENUS' in line] *)
Definition looks_like_header (line : pystr) : bool :=
  contains (lit "SPECIES_NR") line && contains (lit "NAME") line
  && contains (lit "GENUS") line.

Definition has_semicolon (line : pystr) : bool := contains (lit ";") line.

(** The body of the loop over the lines of the file. *)
Definition parse_line (st : parser_state) (raw : pystr) : parser_state :=
  let line := strip raw in
  match line with
  | [] => st
  | _ :: _ =>
      if has_semicolon line && negb (header_found st) then
        if looks_like_header line
        then ParserState (metadata_lines st) (data_rows st) true
        else ParserState (metadata_lines st ++ [line]) (data_rows st)
                         (header_found st)
      else if header_found st then
        let parts := split ";" line in
        if (8 <=? length parts)%nat
        then ParserState (metadata_lines st) (data_rows st ++ [parts])
                         (header_found st)
        else st
      else st
  end.

Definition parse_lines (lines : list pystr) : parser_state :=
  fold_left parse_line lines parser_init.

Definition parse_csv_file (lines : list pystr) : list pystr * list (list pystr) :=
  let st := parse_lines lines in
  (metadata_lines st, data_rows st).

(** ** Runs: a tape of random draws, and exceptions *)

(** A computation reads draws from the tape and ends with a value or with
    a raised exception; [None] means that the tape does not describe a run
    of it (it is too short, or holds a value that the call of
    [random.randint] consuming it cannot return). *)
Definition M (A : Type) : Type := list Z -> option (result A * list Z).

Definition ret {A} (a : A) : M A := fun tape => Some (Ok a, tape).

Definition throw {A} (e : exn) : M A := fun tape => Some (Raise e, tape).

Definition bind {A B} (c : M A) (k : A -> M B) : M B :=
  fun tape =>
    match c tape with
    | Some (Ok a, tape') => k a tape'
    | Some (Raise e, tape') => Some (Raise e, tape')
    | None => None
    end.

Definition lift {A} (r : result A) : M A :=
  match r with
  | Ok a => ret a
  | Raise e => throw e
  end.

Notation "'do' x <- c ; k" := (bind c (fun x => k))
  (at level 10, x name, c at level 100, k at level 200).

(** [random.randint(a, b)] *)
Definition randint (a b : Z) : M Z :=
  fun tape =>
    match tape with
    | r :: tape' => if (a <=? r) && (r <=? b) then Some (Ok r, tape') else None
    | [] => None
    end.

(** ** [generate_64bit_id] *)

Definition max_val : Z := 2 ^ 64 - 10 ^ 10 - 1.

Definition generate_64bit_id (exclude_upper_10_billion : bool) : M Z :=
  if exclude_upper_10_billion then randint 1 max_val
  else randint 1 (2 ^ 64 - 1).

(** ** [transform_species_csv] *)

(** The loop that updates the metadata. *)
Definition update_metadata_line (line : pystr) : pystr :=
  if startswith (lit "SPECIES_LU_VERSION") line then
    match split1 ";" line with
    | [_; value] => lit "SPECIES_LU;" ++ value
    | _ => replace (lit "SPECIES_LU_VERSION") (lit "SPECIES_LU") line
    end
  else line.

Definition update_metadata (metadata : list pystr) : list pystr :=
  map update_metadata_line metadata.

(** [old_to_new_id] and [used_ids] *)
Record id_state : Type := IdState {
  old_to_new_id : gmap Z Z;
  used_ids : gset Z
}.

Definition id_init : id_state := IdState ∅ ∅.

(** [while new_id in used_ids: new_id = generate_64bit_id()]; every turn
    of the loop consumes one draw, so [fuel] is the length of the tape. *)
Fixpoint redraw_while_used (fuel : nat) (used : gset Z) (new_id : Z) : M Z :=
  if decide (new_id ∈ used) then
    match fuel with
    | S fuel' =>
        do new_id' <- generate_64bit_id true;
        redraw_while_used fuel' used new_id'
    | O => fun _ => None
    end
  else ret new_id.

(** [if old not in old_to_new_id: ...], for one legacy identifier. *)
Definition assign_new_id (old : Z) (st : id_state) : M id_state :=
  match old_to_new_id st !! old with
  | Some _ => ret st
  | None =>
      fun tape =>
        (do new_id0 <- generate_64bit_id true;
         do new_id <- redraw_while_used (length tape) (used_ids st) new_id0;
         ret (IdState (<[old := new_id]> (old_to_new_id st))
                      ({[new_id]} ∪ used_ids st))) tape
  end.

(** The two [int(...)] calls that open the [try] block of the first pass. *)
Definition first_pass_ids (row : list pystr) : result (Z * Z) :=
  rbind (rbind (getitem row 0) py_int) (fun old_species_nr =>
  rbind (if (6 <? length row)%nat then rbind (getitem row 6) py_int
         else Ok old_species_nr) (fun old_valid_nr =>
  Ok (old_species_nr, old_valid_nr))).

(** The body of the first loop over [data_rows]. Both identifiers are
    parsed before the dict or the set is touched, so the handler resumes
    with the state the row started from. *)
Definition first_pass_row (st : id_state) (row : list pystr) : M id_state :=
  if (7 <=? length row)%nat then
    match first_pass_ids row with
    | Ok (old_species_nr, old_valid_nr) =>
        do st1 <- assign_new_id old_species_nr st;
        assign_new_id old_valid_nr st1
    | Raise e => if caught e then ret st else throw e
    end
  else ret st.

Fixpoint first_pass (st : id_state) (rows : list (list pystr)) : M id_state :=
  match rows with
  | [] => ret st
  | row :: rest =>
      do st' <- first_pass_row st row;
      first_pass st' rest
  end.

(** What one turn of the second loop does with its row. *)
Inductive row_action : Type :=
| Emit (new_row : list pystr)
| Skip (e : exn)
| Ignore.

(** The [try] block of the second loop. *)
Definition build_new_row (ids : gmap Z Z) (row : list pystr) : result (list pystr) :=
  rbind (rbind (getitem row 0) py_int) (fun old_species_nr =>
  rbind (getitem row 1) (fun name =>
  rbind (getitem row 2) (fun genus =>
  rbind (getitem row 3) (fun species =>
  rbind (getitem row 5) (fun synonym =>
  rbind (rbind (getitem row 6) py_int) (fun old_valid_nr =>
  rbind (getitem row 7) (fun valid_name =>
  rbind (dict_get ids old_species_nr) (fun new_species_nr =>
  rbind (dict_get ids old_valid_nr) (fun new_valid_nr =>
  let parent_nr : pystr := [] in
  let parent_name : pystr := [] in
  Ok [str_of_int new_species_nr; name; genus; species; synonym;
      str_of_int new_valid_nr; valid_name;
      match parent_nr with [] => [] | _ :: _ => parent_nr end;
      parent_name]))))))))).

(** The body of the second loop over [data_rows]: the row is emitted,
    skipped with a warning, ignored for being short, or an exception that
    the handler does not catch leaves the loop. *)
Definition transform_row (ids : gmap Z Z) (row : list pystr) : result row_action :=
  if (8 <=? length row)%nat then
    match build_new_row ids row with
    | Ok new_row => Ok (Emit new_row)
    | Raise e => if caught e then Ok (Skip e) else Raise e
    end
  else Ok Ignore.

Fixpoint transform_rows (ids : gmap Z Z) (rows : list (list pystr))
  : result (list (list pystr)) :=
  match rows with
  | [] => Ok []
  | row :: rest =>
      rbind (transform_row ids row) (fun act =>
      rbind (transform_rows ids rest) (fun out =>
      Ok match act with
         | Emit new_row => new_row :: out
         | Skip _ | Ignore => out
         end))
  end.

Definition new_header : pystr :=
  lit "SPECIES_NR;NAME;GENUS;SPECIES;SYNONYM;VALID_NR;VALID_NAME;PARENT_NR;PARENT_NAME".

Definition newline : pystr := lit (String "010" EmptyString).

(** The text written by the first [with open(output_file, 'w')] block. *)
Definition write_lines (lines : list pystr) : pystr :=
  concat (map (fun line => line ++ newline) lines).

Definition serialize (new_metadata : list pystr)
    (transformed_rows : list (list pystr)) : pystr :=
  write_lines new_metadata ++ (new_header ++ newline)
  ++ write_lines (map (join (lit ";")) transformed_rows).

(** The two [content.replace] calls on the text read back. *)
Definition convert_booleans (content : pystr) : pystr :=
  replace (lit ";FALSCH;") (lit ";FALSE;")
    (replace (lit ";WAHR;") (lit ";TRUE;") content).

(** What a run leaves behind: the rows it transformed and the text of the
    output file. *)
Record transformed : Type := Transformed {
  id_mapping : gmap Z Z;
  transformed_rows : list (list pystr);
  output_text : pystr
}.

Definition transform_species_csv (lines : list pystr) : M transformed :=
  let '(metadata, rows) := parse_csv_file lines in
  let new_metadata := update_metadata metadata in
  do st <- first_pass id_init rows;
  do new_rows <- lift (transform_rows (old_to_new_id st) rows);
  ret (Transformed (old_to_new_id st) new_rows
         (convert_booleans (serialize new_metadata new_rows))).

(** ** Vocabulary of the statements *)

(** One of [p] and [n] is a prefix of the other. *)
Definition compatible (p n : pystr) : bool := startswith p n || startswith n p.

(** [passes old new p]: wherever [p] begins in a text produced by
    [replace old new], it begins with characters that the scan copied, up
    to a common prefix of [old] and [new]. *)
Fixpoint passes (old new p : pystr) : bool :=
  match p with
  | [] => true
  | _ :: p' =>
      (negb (compatible p new) || startswith p new && startswith p old)
      && passes old new p'
  end.

(** An occurrence of [q] that begins at offset [i] of an inserted [new]
    runs into the text behind it, and then [old] followed by the rest of
    [q] holds an occurrence of [q']. *)
Definition seam_ok (old new q q' : pystr) (i : nat) : bool :=
  let n := drop i new in
  if startswith q n then false
  else if startswith n q
       then passes old new (drop (length n) q)
            && contains q' (old ++ drop (length n) q)
       else true.

(** A sufficient test for: [replace old new] leaves an occurrence of [q]
    only in a text that held an occurrence of [q']. *)
Definition no_new_match (old new q q' : pystr) : bool :=
  match q with
  | [] => false
  | _ :: q1 =>
      forallb (seam_ok old new q q') (seq 0 (length new))
      && passes old new q1
      && (startswith old q || startswith q' q)
  end.

(** The two identifiers that the second loop parses from a row. *)
Definition row_ids (row : list pystr) : result (Z * Z) :=
  rbind (rbind (getitem row 0) py_int) (fun old_species_nr =>
  rbind (rbind (getitem row 6) py_int) (fun old_valid_nr =>
  Ok (old_species_nr, old_valid_nr))).

Definition is_ok {A} (r : result A) : bool :=
  match r with
  | Ok _ => true
  | Raise _ => false
  end.

(** A row that reaches the output: 8 fields or more, and fields 0 and 6
    parse as integers. *)
Definition kept (row : list pystr) : bool :=
  (8 <=? length row)%nat && is_ok (row_ids row).

(** [transformed_from ids row new_row]: the new row is the raw row in the
    new layout, with both identifiers taken through [ids]. *)
Inductive transformed_from (ids : gmap Z Z) : list pystr -> list pystr -> Prop :=
| TransformedFrom f0 f1 f2 f3 f4 f5 f6 f7 rest o v new_o new_v :
    py_int f0 = Ok o -> py_int f6 = Ok v ->
    ids !! o = Some new_o -> ids !! v = Some new_v ->
    transformed_from ids
      (f0 :: f1 :: f2 :: f3 :: f4 :: f5 :: f6 :: f7 :: rest)
      [str_of_int new_o; f1; f2; f3; f5; str_of_int new_v; f7; []; []].

(** The line that the parser takes for the header of the data. *)
Definition is_header_line (raw : pystr) : bool :=
  has_semicolon (strip raw) && looks_like_header (strip raw).

Fixpoint lines_before_header (lines : list pystr) : list pystr :=
  match lines with
  | [] => []
  | raw :: rest =>
      if is_header_line raw then [] else raw :: lines_before_header rest
  end.

Fixpoint lines_after_header (lines : list pystr) : list pystr :=
  match lines with
  | [] => []
  | raw :: rest =>
      if is_header_line raw then rest else lines_after_header rest
  end.

Definition nonblank (line : pystr) : bool :=
  match line with
  | [] => false
  | _ :: _ => true
  end.

(** The data lines of the input: the lines behind the header that are not
    blank, stripped. *)
Definition data_lines (lines : list pystr) : list pystr :=
  List.filter nonblank (map strip (lines_after_header lines)).

(** The lines of the input that hold a [;], stripped. *)
Definition semicolon_lines (lines : list pystr) : list pystr :=
  List.filter has_semicolon (map strip lines).

Definition long_enough (parts : list pystr) : bool := (8 <=? length parts)%nat.

(** What the first pass keeps true of [old_to_new_id] and [used_ids]. *)
Record ids_ok (st : id_state) : Prop := IdsOk {
  ids_used : forall k v, old_to_new_id st !! k = Some v -> v ∈ used_ids st;
  ids_range : forall k v, old_to_new_id st !! k = Some v -> 1 <= v <= max_val;
  ids_inj : forall k1 k2 v,
    old_to_new_id st !! k1 = Some v -> old_to_new_id st !! k2 = Some v -> k1 = k2
}.

(** One state extends another when it keeps every binding of it. *)
Definition extends (st st' : id_state) : Prop :=
  forall k v, old_to_new_id st !! k = Some v -> old_to_new_id st' !! k = Some v.

(** Every identifier that a kept row of [rows] parses is a key of [ids]. *)
Definition covers (ids : gmap Z Z) (rows : list (list pystr)) : Prop :=
  forall row o v, row ∈ rows -> (8 <= length row)%nat -> row_ids row = Ok (o, v) ->
    is_Some (ids !! o) /\ is_Some (ids !! v).

(** A row is dropped for being short or for an identifier that [int]
    rejects. *)
Definition dropped (row : list pystr) : Prop :=
  (length row < 8)%nat \/
  (exists f, row !! 0%nat = Some f /\ py_int f = Raise ValueError) \/
  (exists f, row !! 6%nat = Some f /\ py_int f = Raise ValueError).

(** ** Inputs of the examples *)

Definition ex_lines : list pystr :=
  [lit "SPECIES_LU_VERSION;3.2";
   lit "SPECIES_NR;NAME;GENUS;SPECIES;AUTHOR;SYNONYM;VALID_NR;VALID_NAME;SECUNDUM";
   lit "1;Alpha;Genus1;sp1;AuthorA;FALSCH;1;Alpha;SecA";
   lit "2;Beta;Genus1;sp2;AuthorB;WAHR;1;Alpha;SecB";
   lit "x;Gamma;Genus1;sp3;AuthorC;WAHR;1;Alpha;SecC";
   lit "3;too;short"].

Definition ex_rows : list (list pystr) := snd (parse_csv_file ex_lines).

(** A tape on which the second draw repeats the first one. *)
Definition ex_tape : list Z := [7; 7; 9].

Definition overlap_lines : list pystr :=
  [lit "SPECIES_NR;NAME;GENUS;SPECIES;AUTHOR;SYNONYM;VALID_NR;VALID_NAME;SECUNDUM";
   lit "4;Foo;Bar;WAHR;Auth;WAHR;4;Foo;Sec"].

Definition metadata_only_lines : list pystr :=
  [lit "A;WAHR;B"; lit "SPECIES_LU_VERSION;WAHR;x"].

Definition comma_header : pystr := lit "SPECIES_NR,NAME,GENUS,SPECIES".



Definition headerless_lines : list pystr :=
  [lit "SPECIES_LU_VERSION;3.2"; lit ""; lit "  free text without separator";
   lit " 1;Alpha;Genus1;sp1;AuthorA;WAHR;1;Alpha;SecA"; lit "NAME;GENUS"].

(** ** The archive: names and paths *)

(** [c.lower()] for a code point below 256: A..Z and the capital letters
    of Latin-1 (all of 192..222 but the multiplication sign) move up
    by 32. *)
Definition lower_char (c : ascii) : ascii :=
  let n := N_of_ascii c in
  if ((65 <=? n) && (n <=? 90)
      || (192 <=? n) && (n <=? 222) && negb (n =? 215))%N
  then ascii_of_N (n + 32) else c.

(** [s.lower()] *)
Definition lower (s : pystr) : pystr := map lower_char s.

(** [s.endswith(suffix)] *)
Definition endswith (suffix s : pystr) : bool :=
  startswith (reverse suffix) (reverse s).

Definition is_zip_file (file_path : pystr) : bool :=
  endswith (lit ".zip") (lower file_path).

(** [f.lower().endswith(('.csv', '.txt'))] *)
Definition is_data_file (f : pystr) : bool :=
  endswith (lit ".csv") (lower f) || endswith (lit ".txt") (lower f).

(** [[f for f in zip_ref.namelist() if f.lower().endswith(('.csv', '.txt'))]],
    in [extract_csv_from_zip] and again in [process_zip_file]. *)
Definition data_files (namelist : list pystr) : list pystr :=
  List.filter is_data_file namelist.

(** The member that [extract_csv_from_zip] extracts. *)
Definition data_filename (namelist : list pystr) : result pystr :=
  match data_files namelist with
  | [] => Raise ValueError
  | f :: _ => Ok f
  end.

(** [original_data_name = data_files[0]] in [process_zip_file]. *)
Definition original_data_name (namelist : list pystr) : result pystr :=
  getitem (data_files namelist) 0.

(** [s.rfind(c)] for one character: the last index of [c], or -1. *)
Fixpoint rfind_from (c : ascii) (s : pystr) (i found : Z) : Z :=
  match s with
  | [] => found
  | x :: r => rfind_from c r (i + 1) (if ascii_eqb x c then i else found)
  end.

Definition rfind (c : ascii) (s : pystr) : Z := rfind_from c s 0 (-1).

(** [PurePath.suffix] and [PurePath.stem] on the final component of a
    path, as pathlib defines them up to Python 3.12 (later versions agree
    unless the name is dots up to its last dot). *)
Definition path_suffix (name : pystr) : pystr :=
  let i := rfind "." name in
  if (0 <? i) && (i <? Z.of_nat (length name) - 1)
  then drop (Z.to_nat i) name else [].

Definition path_stem (name : pystr) : pystr :=
  let i := rfind "." name in
  if (0 <? i) && (i <? Z.of_nat (length name) - 1)
  then take (Z.to_nat i) name else name.

(** The name that [create_transformed_zip] gives the new archive when no
    output path is passed: [f"{zip_path.stem}_transformed{zip_path.suffix}"]
    for the final component [name] of [original_zip_path]. *)
Definition transformed_zip_name (name : pystr) : pystr :=
  path_stem name ++ lit "_transformed" ++ path_suffix name.

(** ** Vocabulary of the further statements *)

(** The fields of a line behind its first field, after one [replace] of
    the token [tok] between two [;] by [new]: a field that reads [tok] and
    is not the last one is rewritten, and the field behind it is passed
    over. *)
Fixpoint convert_rest (tok new : pystr) (fields : list pystr) : list pystr :=
  match fields with
  | f :: ((g :: rest') as rest) =>
      if bool_decide (f = tok) then new :: g :: convert_rest tok new rest'
      else f :: convert_rest tok new rest
  | _ => fields
  end.

Definition convert_fields (tok new : pystr) (fields : list pystr) : list pystr :=
  match fields with
  | [] => []
  | f0 :: rest => f0 :: convert_rest tok new rest
  end.

(** The fields of a line after both replacements. *)
Definition convert_boolean_fields (fields : list pystr) : list pystr :=
  convert_fields (lit "FALSCH") (lit "FALSE")
    (convert_fields (lit "WAHR") (lit "TRUE") fields).

(** A field and what the conversion makes of it. *)
Definition field_converted (f g : pystr) : Prop :=
  g = f \/ (f = lit "WAHR" /\ g = lit "TRUE") \/ (f = lit "FALSCH" /\ g = lit "FALSE").

(** [k] is an identifier that the first pass parses from a row of [rows]. *)
Definition mentioned (rows : list (list pystr)) (k : Z) : Prop :=
  exists row o v, row ∈ rows /\ (7 <= length row)%nat /\
    first_pass_ids row = Ok (o, v) /\ (k = o \/ k = v).

Definition no_semicolon (f : pystr) : Prop := ";"%char ∉ f.

(** The value of a decimal numeral read behind the value [acc]. *)
Fixpoint uint_value (acc : Z) (d : Decimal.uint) : Z :=
  match d with
  | Decimal.Nil => acc
  | Decimal.D0 l => uint_value (10 * acc + 0) l
  | Decimal.D1 l => uint_value (10 * acc + 1) l
  | Decimal.D2 l => uint_value (10 * acc + 2) l
  | Decimal.D3 l => uint_value (10 * acc + 3) l
  | Decimal.D4 l => uint_value (10 * acc + 4) l
  | Decimal.D5 l => uint_value (10 * acc + 5) l
  | Decimal.D6 l => uint_value (10 * acc + 6) l
  | Decimal.D7 l => uint_value (10 * acc + 7) l
  | Decimal.D8 l => uint_value (10 * acc + 8) l
  | Decimal.D9 l => uint_value (10 * acc + 9) l
  end.

(** A character of a decimal literal as [str] writes it. *)
Definition is_decimal_char (c : ascii) : Prop :=
  is_Some (digit_val c) \/ c = "-"%char.

(** The set of used identifiers is the set of the values of the mapping,
    one for each key. *)
Definition ids_exact (st : id_state) : Prop :=
  (forall v, v ∈ used_ids st <-> exists k, old_to_new_id st !! k = Some v)
  /\ size (old_to_new_id st) = size (used_ids st).

(** What a part of the first pass does to the state while it reads the
    draws [consumed]: the keys grow by [added], and every new value is one
    of the draws. *)
Definition pass_effect (st st' : id_state) (added : Z -> Prop)
    (consumed : list Z) : Prop :=
  (forall k, is_Some (old_to_new_id st' !! k)
             <-> is_Some (old_to_new_id st !! k) \/ added k)
  /\ (forall k v, old_to_new_id st' !! k = Some v ->
        old_to_new_id st !! k = Some v \/ v ∈ consumed)
  /\ (size (old_to_new_id st') <= size (old_to_new_id st) + length consumed)%nat.

(** ** Inputs of the further examples *)

Definition boolean_fields : list pystr :=
  [lit "1"; lit "WAHR"; lit "WAHR"; lit "FALSCH"; lit "WAHR"].

(** * Properties *)

(** ** The embedding on concrete inputs *)

Example split_keeps_empty_fields :
  split ";" (lit "a;;b;") = [lit "a"; lit ""; lit "b"; lit ""].
Proof. reflexivity. Qed.

Example split1_cuts_once :
  split1 ";" (lit "k;v;w") = [lit "k"; lit "v;w"] /\ split1 ";" (lit "k") = [lit "k"].
Proof. by split. Qed.

Example strip_both_ends : strip (lit "  a b  ") = lit "a b".
Proof. reflexivity. Qed.

Example replace_does_not_overlap :
  replace (lit "aa") (lit "b") (lit "aaa") = lit "ba".
Proof. reflexivity. Qed.

Example py_int_accepts :
  py_int (lit " -1_000 ") = Ok (-1000) /\ py_int (lit "+007") = Ok 7.
Proof. by split. Qed.

Example py_int_rejects :
  py_int (lit "1__0") = Raise ValueError /\ py_int (lit "_1") = Raise ValueError /\
  py_int (lit "1_") = Raise ValueError /\ py_int (lit "- 1") = Raise ValueError /\
  py_int (lit "") = Raise ValueError /\ py_int (lit "1.0") = Raise ValueError.
Proof. by repeat split. Qed.

(** [int] passes over TAB..CR, the space, NEL and NBSP, not over FS..US,
    which [str.strip] removes. *)
Example py_int_white_space :
  py_int (" "%char :: "009"%char :: "160"%char :: "133"%char :: lit "5")
  = Ok 5 /\
  py_int ("031"%char :: lit "5") = Raise ValueError /\
  py_int (lit "5" ++ ["028"%char]) = Raise ValueError /\
  strip ("031"%char :: lit "5") = lit "5".
Proof. by repeat split. Qed.

(** A literal of 4300 digits is read, one of 4301 digits is not; the
    sign, the white space and the underscores do not count. *)
Example py_int_digit_limit :
  py_int (repeat "0"%char 4300) = Ok 0 /\
  py_int (repeat "0"%char 4301) = Raise ValueError /\
  py_int (lit " -" ++ repeat "0"%char 4300 ++ lit " ") = Ok 0 /\
  py_int (concat (repeat (lit "0_") 4299) ++ lit "0") = Ok 0 /\
  py_int (concat (repeat (lit "0_") 4300) ++ lit "0") = Raise ValueError.
Proof. vm_compute. by repeat split. Qed.

(** A row whose identifiers are padded with the unit separator inside
    the line is skipped in both loops: no draw is read, the mapping stays
    empty and no row is written. *)
Example separator_padded_row_is_skipped :
  exists t,
    transform_species_csv
      [lit "SPECIES_NR;NAME;GENUS;SPECIES;AUTHOR;SYNONYM;VALID_NR;VALID_NAME;SECUNDUM";
       lit "5" ++ ["031"%char] ++ lit ";Alpha;Genus1;sp1;AuthorA;WAHR;"
         ++ ["031"%char] ++ lit "6;Alpha;SecA"] []
    = Some (Ok t, []) /\
    id_mapping t !! 5 = None /\ id_mapping t !! 6 = None /\
    transformed_rows t = [] /\
    output_text t = new_header ++ newline.
Proof. eexists. split; [by vm_compute|]. by vm_compute. Qed.

Example str_of_int_decimal :
  str_of_int max_val = lit "18446744063709551615" /\ str_of_int (-5) = lit "-5".
Proof. by split. Qed.

Example update_metadata_line_renames :
  update_metadata_line (lit "SPECIES_LU_VERSION;3.2") = lit "SPECIES_LU;3.2" /\
  update_metadata_line (lit "SPECIES_LU_VERSION") = lit "SPECIES_LU" /\
  update_metadata_line (lit "OTHER;1") = lit "OTHER;1".
Proof. by repeat split. Qed.

(** The input of the documentation, two rows: the draws 7 and 9 give the
    first species 7, the second 9, and the second row points to 7. *)
Example two_rows_end_to_end :
  exists t,
    transform_species_csv
      [lit "SPECIES_NR;NAME;GENUS;SPECIES;AUTHOR;SYNONYM;VALID_NR;VALID_NAME;SECUNDUM";
       lit "1;Alpha;Genus1;sp1;AuthorA;FALSCH;1;Alpha;SecA";
       lit "2;Beta;Genus1;sp2;AuthorB;WAHR;1;Alpha;SecB"] [7; 9]
    = Some (Ok t, []) /\
    output_text t
    = new_header ++ newline
      ++ lit "7;Alpha;Genus1;sp1;FALSE;7;Alpha;;" ++ newline
      ++ lit "9;Beta;Genus1;sp2;TRUE;7;Alpha;;" ++ newline.
Proof. eexists. split; by vm_compute. Qed.

(** A tape that ends before the loop has found an unused identifier, or
    that holds a value out of the range of the draw, describes no run. *)
Example tapes_that_describe_no_run :
  first_pass id_init ex_rows [7; 7] = None /\
  first_pass id_init ex_rows [0; 9] = None /\
  first_pass id_init ex_rows [7; max_val + 1] = None.
Proof. by vm_compute. Qed.

(** ** Runs *)

Lemma bind_Some {A B} (c : M A) (k : A -> M B) tape r tape' :
  bind c k tape = Some (r, tape') ->
  (exists e, c tape = Some (Raise e, tape') /\ r = Raise e) \/
  (exists a tape1, c tape = Some (Ok a, tape1) /\ k a tape1 = Some (r, tape')).
Proof.
  unfold bind. destruct (c tape) as [[[a|e] tape1]|]; intros H.
  - right. eauto.
  - left. exists e. by inversion H.
  - discriminate.
Qed.

Lemma randint_Some a b tape r tape' :
  randint a b tape = Some (r, tape') ->
  exists v, r = Ok v /\ tape = v :: tape' /\ a <= v <= b.
Proof.
  unfold randint. destruct tape as [|v tape1]; [discriminate|].
  destruct (a <=? v) eqn:Ha; [|discriminate].
  destruct (v <=? b) eqn:Hb; [|discriminate].
  simpl. intros [= <- <-]. exists v. repeat split; lia.
Qed.

Lemma generate_64bit_id_Some tape r tape' :
  generate_64bit_id true tape = Some (r, tape') ->
  exists v, r = Ok v /\ tape = v :: tape' /\ 1 <= v <= max_val.
Proof. apply randint_Some. Qed.

Lemma redraw_while_used_Some fuel used x tape r tape' :
  1 <= x <= max_val ->
  redraw_while_used fuel used x tape = Some (r, tape') ->
  exists v, r = Ok v /\ (v ∉ used) /\ 1 <= v <= max_val.
Proof.
  revert x tape. induction fuel as [|fuel IH]; intros x tape Hx; simpl.
  - case_decide; [discriminate|]. intros [= <- <-]. eauto.
  - case_decide.
    + intros H0. apply bind_Some in H0 as [(e & H0 & _)|(y & tape1 & H0 & H1)].
      * apply generate_64bit_id_Some in H0 as (v & ? & _). discriminate.
      * apply generate_64bit_id_Some in H0 as (v & [= ->] & _ & Hv). eauto.
    + intros [= <- <-]. eauto.
Qed.

(** ** The identifier mapping *)

Lemma ids_ok_init : ids_ok id_init.
Proof. split; simpl; intros *; by rewrite lookup_empty. Qed.

Lemma extends_refl st : extends st st.
Proof. by intros k v. Qed.

Lemma extends_trans st1 st2 st3 : extends st1 st2 -> extends st2 st3 -> extends st1 st3.
Proof. intros H1 H2 k v Hk. by apply H2, H1. Qed.

Lemma assign_new_id_Some old st tape r tape' :
  ids_ok st ->
  assign_new_id old st tape = Some (r, tape') ->
  exists st', r = Ok st' /\ ids_ok st' /\ extends st st'
              /\ is_Some (old_to_new_id st' !! old).
Proof.
  intros [Hu Hr Hi]. unfold assign_new_id.
  destruct (old_to_new_id st !! old) as [v0|] eqn:Hold.
  - intros [= <- <-]. exists st. split; [done|]. split; [by split|].
    split; [apply extends_refl|]. rewrite Hold. eauto.
  - intros H0. apply bind_Some in H0 as [(e & H0 & _)|(x & tape1 & H0 & H1)].
    { apply generate_64bit_id_Some in H0 as (v & ? & _). discriminate. }
    apply generate_64bit_id_Some in H0 as (v & [= ->] & _ & Hv).
    apply bind_Some in H1 as [(e & H1 & _)|(y & tape2 & H1 & H2)].
    { by apply redraw_while_used_Some in H1 as (w & ? & _). }
    apply redraw_while_used_Some in H1 as (w & [= ->] & Hw & Hwr); [|done].
    injection H2 as <- <-. eexists. split; [done|].
    split; [split; simpl|split; simpl].
    + intros k u. rewrite lookup_insert. case_decide.
      * intros [= <-]. apply elem_of_union. left. by apply elem_of_singleton.
      * intros Hk. apply elem_of_union. right. eauto.
    + intros k u. rewrite lookup_insert. case_decide; [by intros [= <-]|eauto].
    + intros k1 k2 u. rewrite !lookup_insert. repeat case_decide; subst.
      * done.
      * intros [= <-] Hk. by apply Hu in Hk.
      * intros Hk [= <-]. by apply Hu in Hk.
      * eauto.
    + intros k u Hk. simpl. rewrite lookup_insert_ne; [done|]. congruence.
    + rewrite lookup_insert_eq. eauto.
Qed.

Lemma first_pass_ids_caught row e : first_pass_ids row = Raise e -> caught e = true.
Proof.
  unfold first_pass_ids, getitem, py_int, rbind.
  repeat case_match; intros; simplify_eq; done.
Qed.

Lemma first_pass_row_Some st row tape r tape' :
  ids_ok st ->
  first_pass_row st row tape = Some (r, tape') ->
  exists st', r = Ok st' /\ ids_ok st' /\ extends st st' /\
    forall o v, (7 <= length row)%nat -> first_pass_ids row = Ok (o, v) ->
      is_Some (old_to_new_id st' !! o) /\ is_Some (old_to_new_id st' !! v).
Proof.
  intros Hok. unfold first_pass_row.
  destruct (7 <=? length row)%nat eqn:Hlen.
  - destruct (first_pass_ids row) as [[o v]|e] eqn:Hids.
    + intros H0. apply bind_Some in H0 as [(e & H0 & _)|(st1 & tape1 & H0 & H1)].
      { by apply assign_new_id_Some in H0 as (? & ? & _). }
      apply assign_new_id_Some in H0 as (? & [= <-] & Hok1 & Hext1 & [x Ho]); [|done].
      apply assign_new_id_Some in H1 as (st2 & -> & Hok2 & Hext2 & Hv); [|done].
      exists st2. split; [done|]. split; [done|].
      split; [eauto using extends_trans|].
      intros o' v' _ [= <- <-]. split; [|done]. exists x. by apply Hext2.
    + rewrite (first_pass_ids_caught _ _ Hids). intros [= <- <-].
      exists st. split; [done|]. split; [done|]. split; [apply extends_refl|].
      discriminate.
  - intros [= <- <-]. exists st. split; [done|]. split; [done|].
    split; [apply extends_refl|].
    intros o v Hl. apply Nat.leb_nle in Hlen. lia.
Qed.

Lemma first_pass_Some st rows tape r tape' :
  ids_ok st ->
  first_pass st rows tape = Some (r, tape') ->
  exists st', r = Ok st' /\ ids_ok st' /\ extends st st' /\
    forall row o v, row ∈ rows -> (7 <= length row)%nat ->
      first_pass_ids row = Ok (o, v) ->
      is_Some (old_to_new_id st' !! o) /\ is_Some (old_to_new_id st' !! v).
Proof.
  revert st tape. induction rows as [|row rows IH]; intros st tape Hok; simpl.
  - intros [= <- <-]. exists st. split; [done|]. split; [done|].
    split; [apply extends_refl|].
    intros row o v Hin. by apply elem_of_nil in Hin.
  - intros H0. apply bind_Some in H0 as [(e & H0 & _)|(st1 & tape1 & H0 & H1)].
    { by apply first_pass_row_Some in H0 as (? & ? & _). }
    apply first_pass_row_Some in H0 as (? & [= <-] & Hok1 & Hext1 & Hrow); [|done].
    apply IH in H1 as (st2 & -> & Hok2 & Hext2 & Hrows); [|done].
    exists st2. split; [done|]. split; [done|].
    split; [eauto using extends_trans|].
    intros r o v [->|Hin]%elem_of_cons Hl Hids; [|by eapply Hrows].
    destruct (Hrow o v Hl Hids) as [[x Hx] [y Hy]].
    split; [exists x|exists y]; by apply Hext2.
Qed.

(** ** Strings *)

Lemma ascii_eqb_true a b : ascii_eqb a b = true <-> a = b.
Proof. apply Ascii.eqb_eq. Qed.

Lemma startswith_spec p s : startswith p s = true <-> exists b, s = p ++ b.
Proof.
  revert s. induction p as [|a p IH]; intros s; simpl.
  - split; [eauto|done].
  - destruct s as [|c s].
    + split; [done|]. by intros [b ?].
    + rewrite andb_true_iff, ascii_eqb_true, IH. split.
      * intros [-> [b ->]]. eauto.
      * intros [b [= -> ->]]. eauto.
Qed.

Lemma startswith_app p s t : startswith p s = true -> startswith p (s ++ t) = true.
Proof.
  rewrite !startswith_spec. intros [b ->]. exists (b ++ t). by rewrite app_assoc.
Qed.

Lemma startswith_self_app p t : startswith p (p ++ t) = true.
Proof. apply startswith_spec. eauto. Qed.

Lemma startswith_drop p s :
  startswith p s = true -> s = p ++ drop (length p) s.
Proof.
  intros [b ->]%startswith_spec. by rewrite drop_app_length.
Qed.

Lemma contains_spec sub s : contains sub s = true <-> exists a b, s = a ++ sub ++ b.
Proof.
  induction s as [|c s IH]; simpl.
  - rewrite orb_false_r, startswith_spec. split.
    + intros [b ->]. by exists [], b.
    + intros (a & b & H). symmetry in H.
      apply app_eq_nil in H as [-> H]. apply app_eq_nil in H as [-> ->]. by exists [].
  - rewrite orb_true_iff, startswith_spec, IH. split.
    + intros [[b ->]|(a & b & ->)]; [by exists [], b|by exists (c :: a), b].
    + intros ([|x a] & b & H); simpl in H.
      * left. eauto.
      * injection H as -> ->. right. eauto.
Qed.

Lemma contains_cons_false sub c s :
  contains sub (c :: s) = false ->
  startswith sub (c :: s) = false /\ contains sub s = false.
Proof. simpl. by intros ?%orb_false_iff. Qed.

Lemma contains_app_r sub a s : contains sub s = true -> contains sub (a ++ s) = true.
Proof.
  rewrite !contains_spec. intros (x & y & ->). exists (a ++ x), y. by rewrite app_assoc.
Qed.

Lemma contains_app_l sub s b : contains sub s = true -> contains sub (s ++ b) = true.
Proof.
  rewrite !contains_spec. intros (x & y & ->). exists x, (y ++ b).
  by rewrite <- !app_assoc.
Qed.

Lemma contains_trans a b s :
  contains a b = true -> contains b s = true -> contains a s = true.
Proof.
  intros (x & y & ->)%contains_spec Hs.
  apply contains_spec in Hs as (u & v & ->).
  apply contains_app_r, contains_app_l, contains_app_r, contains_app_l.
  apply contains_spec. by exists [], []; rewrite app_nil_r.
Qed.

Lemma startswith_contains p s : startswith p s = true -> contains p s = true.
Proof. destruct s; simpl; intros ->; done. Qed.

(** A match starting inside [n ++ x] starts in [n] or lies in [x]. *)
Lemma contains_app_inv q n x :
  contains q (n ++ x) = true ->
  contains q x = true \/
  exists i, (i < length n)%nat /\ startswith q (drop i n ++ x) = true.
Proof.
  induction n as [|c n IH]; simpl; [by left|].
  intros [H|H]%orb_true_iff.
  - right. exists 0%nat. split; [lia|done].
  - destruct (IH H) as [?|(i & Hi & Hs)]; [by left|].
    right. exists (S i). split; [lia|done].
Qed.

(** *** [replace] *)

Lemma replace_from_drop old new k s :
  replace_from old new k s = replace old new (drop k s).
Proof.
  revert k. induction s as [|c s IH]; intros [|k]; try done.
  simpl. apply IH.
Qed.

Lemma replace_nil old new : replace old new [] = [].
Proof. done. Qed.

Lemma replace_match old new s :
  old <> [] -> startswith old s = true ->
  replace old new s = new ++ replace old new (drop (length old) s).
Proof.
  intros Hold Hs. destruct s as [|c s].
  - destruct old; [done|discriminate].
  - unfold replace at 1. simpl replace_from.
    change (match old with [] => true | a :: p' => ascii_eqb a c && startswith p' s end)
      with (startswith old (c :: s)).
    rewrite Hs, replace_from_drop. destruct old; [done|]. done.
Qed.

Lemma replace_nomatch old new c s :
  startswith old (c :: s) = false ->
  replace old new (c :: s) = c :: replace old new s.
Proof.
  intros Hs. unfold replace at 1. simpl replace_from.
  change (match old with [] => true | a :: p' => ascii_eqb a c && startswith p' s end)
    with (startswith old (c :: s)).
  by rewrite Hs.
Qed.

(** The scan of [replace] as an induction principle. *)
Lemma replace_ind old (Hold : old <> []) (P : pystr -> Prop) :
  P [] ->
  (forall s, startswith old s = true -> P (drop (length old) s) -> P s) ->
  (forall c s, startswith old (c :: s) = false -> P s -> P (c :: s)) ->
  forall s, P s.
Proof.
  intros Hnil Hm Hn s.
  assert (H : forall n t, (length t < n)%nat -> P t); [|apply (H (S (length s))); lia].
  clear s. induction n as [|n IH]; intros s Hlen; [lia|].
  destruct s as [|c s]; [done|].
  destruct (startswith old (c :: s)) eqn:Hs.
  - apply Hm; [done|]. apply IH. rewrite length_drop.
    destruct old; [done|]. simpl in *. lia.
  - apply Hn; [done|]. apply IH. simpl in *. lia.
Qed.

Lemma replace_absent old new s :
  contains old s = false -> replace old new s = s.
Proof.
  induction s as [|c s IH]; [done|].
  intros [Hs Hc]%contains_cons_false. rewrite replace_nomatch by done. by rewrite IH.
Qed.

Lemma startswith_trans a b s :
  startswith a b = true -> startswith b s = true -> startswith a s = true.
Proof.
  rewrite !startswith_spec. intros [x ->] [y ->]. exists (x ++ y). by rewrite app_assoc.
Qed.

Lemma startswith_app_split q n x :
  startswith q (n ++ x) = true ->
  startswith q n = true \/
  (startswith n q = true /\ startswith (drop (length n) q) x = true).
Proof.
  revert n. induction q as [|a q IH]; intros n; [by left|].
  destruct n as [|b n]; [by right|]. simpl.
  intros [Hab H]%andb_true_iff. apply ascii_eqb_true in Hab as ->.
  destruct (IH _ H) as [Hq|[Hn Hx]].
  - left. rewrite Hq, andb_true_r. by apply ascii_eqb_true.
  - right. rewrite Hn, andb_true_r. split; [by apply ascii_eqb_true|done].
Qed.

Lemma startswith_app_compatible p n x :
  startswith p (n ++ x) = true -> compatible p n = true.
Proof.
  unfold compatible. intros [->|[-> _]]%startswith_app_split; [done|].
  apply orb_true_r.
Qed.

(** A line break is copied by [replace], and no match runs across it. *)
Lemma startswith_app_sep old c a b :
  c ∉ old -> old <> [] -> startswith old (a ++ c :: b) = startswith old a.
Proof.
  revert a. induction old as [|x old IH]; intros a Hc Hne; [done|].
  apply not_elem_of_cons in Hc as [Hx Hc].
  destruct a as [|y a]; simpl.
  - destruct (ascii_eqb x c) eqn:E; [|done]. by apply ascii_eqb_true in E.
  - destruct old as [|x' old]; [done|]. by rewrite IH.
Qed.

Lemma replace_line old new c a b :
  c ∉ old -> old <> [] ->
  replace old new (a ++ c :: b) = replace old new a ++ c :: replace old new b.
Proof.
  intros Hc Hne. induction a as [|s Hs IH|x s Hs IH] using (replace_ind old Hne); [|..].
  - simpl. rewrite replace_nomatch; [done|].
    pose proof (startswith_app_sep old c [] b Hc Hne) as H. simpl in H.
    rewrite H. by destruct old.
  - rewrite (replace_match old new s), (replace_match old new (s ++ c :: b));
      [|done|by rewrite startswith_app_sep|done..].
    rewrite <- app_assoc. f_equal. rewrite <- IH. f_equal.
    apply startswith_drop in Hs. rewrite Hs at 1.
    rewrite <- app_assoc. by rewrite drop_app_length.
  - pose proof (startswith_app_sep old c (x :: s) b Hc Hne) as H.
    rewrite Hs in H. simpl in H |- *.
    rewrite (replace_nomatch old new x s), (replace_nomatch old new x (s ++ c :: b));
      [|done..].
    simpl. by rewrite IH.
Qed.

(** *** Occurrences that [replace] leaves behind *)

Section Occurrences.
Variables old new : pystr.
Hypothesis old_nonempty : old <> [].

Lemma passes_startswith p s :
  passes old new p = true ->
  startswith p (replace old new s) = true -> startswith p s = true.
Proof.
  revert s. induction p as [|a p IH]; intros s; [done|].
  intros [Hcond Hp]%andb_true_iff.
  destruct s as [|c s]; [done|].
  destruct (startswith old (c :: s)) eqn:Hm.
  - rewrite replace_match by done. intros H.
    rewrite (startswith_app_compatible _ _ _ H) in Hcond. simpl in Hcond.
    apply andb_true_iff in Hcond as [_ Hold].
    rewrite (startswith_drop _ _ Hm). by apply startswith_app.
  - rewrite replace_nomatch by done. simpl.
    intros [-> H]%andb_true_iff. by rewrite (IH _ Hp H).
Qed.

Lemma replace_contains q q' s :
  no_new_match old new q q' = true ->
  contains q (replace old new s) = true -> contains q' s = true.
Proof.
  unfold no_new_match. destruct q as [|c0 q1] eqn:Hq; [done|]. rewrite <- Hq.
  intros [[Hseam Hpass]%andb_true_iff Hhead]%andb_true_iff.
  induction s as [|s Hs IH|c s Hs IH] using (replace_ind old old_nonempty).
  - by rewrite Hq.
  - rewrite replace_match by done.
    pose proof (startswith_drop _ _ Hs) as Hsplit.
    intros [H|(i & Hi & H)]%contains_app_inv.
    + rewrite Hsplit. by apply contains_app_r, IH.
    + assert (Hok : seam_ok old new q q' i = true).
      { rewrite forallb_forall in Hseam. apply Hseam, in_seq. lia. }
      unfold seam_ok in Hok.
      apply startswith_app_split in H as [H|[Hn H]]; [by rewrite H in Hok|].
      destruct (startswith q (drop i new)); [done|]. rewrite Hn in Hok.
      apply andb_true_iff in Hok as [Hp Hc].
      apply passes_startswith in H; [|done].
      rewrite Hsplit. apply startswith_drop in H. rewrite H.
      rewrite app_assoc. by apply contains_app_l.
  - rewrite replace_nomatch by done.
    change (contains q (c :: replace old new s))
      with (startswith q (c :: replace old new s) || contains q (replace old new s)).
    intros [H|H]%orb_true_iff.
    + assert (Hst : startswith q (c :: s) = true).
      { rewrite Hq in *. simpl in *. apply andb_true_iff in H as [-> H].
        by rewrite (passes_startswith _ _ Hpass H). }
      apply orb_true_iff in Hhead as [Ho|Hq'].
      * by rewrite (startswith_trans _ _ _ Ho Hst) in Hs.
      * apply startswith_contains. by eapply startswith_trans.
    + apply (contains_app_r _ [c]). by apply IH.
Qed.
End Occurrences.

(** *** [strip] *)

Lemma lstrip_suffix s : exists a, s = a ++ lstrip s.
Proof.
  induction s as [|c s [a IH]]; [by exists []|]. simpl.
  destruct (is_space c); [|by exists []].
  exists (c :: a). simpl. by f_equal.
Qed.

Lemma strip_infix s : exists a b, s = a ++ strip s ++ b.
Proof.
  unfold strip. destruct (lstrip_suffix (rstrip s)) as [a Ha].
  destruct (lstrip_suffix (reverse s)) as [b Hb].
  exists a, (reverse b). rewrite app_assoc, <- Ha. unfold rstrip.
  rewrite <- reverse_app, <- Hb. by rewrite reverse_involutive.
Qed.

Lemma contains_strip p s : contains p (strip s) = true -> contains p s = true.
Proof.
  intros H. destruct (strip_infix s) as (a & b & ->).
  by apply contains_app_r, contains_app_l.
Qed.

Lemma looks_like_header_strip s :
  looks_like_header (strip s) = true -> looks_like_header s = true.
Proof.
  unfold looks_like_header. rewrite !andb_true_iff.
  intros [[H1 H2] H3]. auto using contains_strip.
Qed.

Lemma has_semicolon_nonblank s : has_semicolon s = true -> nonblank s = true.
Proof. by destruct s. Qed.

(** ** The parser *)

Lemma parse_line_header_found st raw :
  header_found st = true -> header_found (parse_line st raw) = true.
Proof.
  intros H. unfold parse_line. rewrite H, andb_false_r.
  by repeat case_match.
Qed.

Lemma parse_line_blank st raw : strip raw = [] -> parse_line st raw = st.
Proof. unfold parse_line. by intros ->. Qed.

Lemma parse_line_in_data st raw :
  header_found st = true -> nonblank (strip raw) = true ->
  parse_line st raw =
  if long_enough (split ";" (strip raw))
  then ParserState (metadata_lines st)
         (data_rows st ++ [split ";" (strip raw)]) true
  else st.
Proof.
  intros Hh Hnb. unfold parse_line, long_enough.
  destruct (strip raw) as [|c line]; [done|]. by rewrite Hh, andb_false_r.
Qed.

Lemma parse_line_before_header st raw :
  header_found st = false -> nonblank (strip raw) = true ->
  parse_line st raw =
  if has_semicolon (strip raw) then
    if looks_like_header (strip raw)
    then ParserState (metadata_lines st) (data_rows st) true
    else ParserState (metadata_lines st ++ [strip raw]) (data_rows st) false
  else st.
Proof.
  intros Hh Hnb. unfold parse_line.
  destruct (strip raw) as [|c line]; [done|]. by rewrite Hh, andb_true_r.
Qed.

Lemma parse_lines_in_data st lines :
  header_found st = true ->
  fold_left parse_line lines st =
  ParserState (metadata_lines st)
    (data_rows st ++
       List.filter long_enough
         (map (split ";") (List.filter nonblank (map strip lines))))
    true.
Proof.
  revert st. induction lines as [|raw lines IH]; intros st Hh.
  - destruct st. simpl in *. subst. by rewrite app_nil_r.
  - cbn [fold_left map List.filter].
    destruct (nonblank (strip raw)) eqn:Hnb.
    + rewrite parse_line_in_data by done. cbn [fold_left map List.filter].
      destruct (long_enough (split ";" (strip raw))); rewrite IH by done.
      * simpl. by rewrite <- app_assoc.
      * done.
    + rewrite parse_line_blank; [by apply IH|]. by destruct (strip raw).
Qed.

Lemma parse_lines_before_header st lines :
  header_found st = false ->
  fold_left parse_line lines st =
  ParserState
    (metadata_lines st ++ semicolon_lines (lines_before_header lines))
    (data_rows st ++
       List.filter long_enough (map (split ";") (data_lines lines)))
    (existsb is_header_line lines).
Proof.
  unfold semicolon_lines, data_lines.
  revert st. induction lines as [|raw lines IH]; intros st Hh.
  - destruct st. simpl in *. subst. by rewrite !app_nil_r.
  - cbn [fold_left lines_before_header lines_after_header existsb].
    unfold is_header_line.
    destruct (nonblank (strip raw)) eqn:Hnb.
    + rewrite parse_line_before_header by done.
      destruct (has_semicolon (strip raw)) eqn:Hsemi; cbn [andb orb].
      * destruct (looks_like_header (strip raw)) eqn:Hhead.
        -- rewrite parse_lines_in_data by done. simpl. by rewrite app_nil_r.
        -- rewrite IH by done. cbn [map List.filter metadata_lines data_rows].
           rewrite Hsemi. by rewrite <- app_assoc.
      * rewrite IH by done. cbn [map List.filter]. by rewrite Hsemi.
    + assert (Hs : has_semicolon (strip raw) = false).
      { destruct (has_semicolon (strip raw)) eqn:E; [|done].
        apply has_semicolon_nonblank in E. congruence. }
      rewrite Hs. cbn [andb orb map List.filter]. rewrite Hs.
      rewrite parse_line_blank; [by apply IH|]. by destruct (strip raw).
Qed.

Lemma parse_csv_file_spec lines :
  parse_csv_file lines =
  (semicolon_lines (lines_before_header lines),
   List.filter long_enough (map (split ";") (data_lines lines))).
Proof.
  unfold parse_csv_file, parse_lines.
  by rewrite parse_lines_before_header.
Qed.

Lemma data_rows_long lines row :
  In row (snd (parse_csv_file lines)) -> (8 <= length row)%nat.
Proof.
  rewrite parse_csv_file_spec. simpl. intros [_ H]%filter_In.
  by apply Nat.leb_le in H.
Qed.

(** ** The second loop *)

Lemma py_int_Raise s e : py_int s = Raise e -> e = ValueError.
Proof. unfold py_int. repeat case_match; congruence. Qed.

Lemma long_row (row : list pystr) :
  (8 <= length row)%nat ->
  exists f0 f1 f2 f3 f4 f5 f6 f7 rest,
    row = f0 :: f1 :: f2 :: f3 :: f4 :: f5 :: f6 :: f7 :: rest.
Proof.
  intros H. do 8 (destruct row as [|? row]; [simpl in H; lia|]).
  by repeat eexists.
Qed.

Lemma transform_row_short ids row :
  (length row < 8)%nat -> transform_row ids row = Ok Ignore.
Proof.
  intros H. unfold transform_row.
  destruct (8 <=? length row)%nat eqn:E; [|done]. apply Nat.leb_le in E. lia.
Qed.

Lemma row_ids_long f0 f1 f2 f3 f4 f5 f6 f7 rest :
  row_ids (f0 :: f1 :: f2 :: f3 :: f4 :: f5 :: f6 :: f7 :: rest) =
  rbind (py_int f0) (fun o => rbind (py_int f6) (fun v => Ok (o, v))).
Proof. done. Qed.

(** What the second loop does with a row of 8 fields or more. *)
Lemma transform_row_long ids f0 f1 f2 f3 f4 f5 f6 f7 rest :
  transform_row ids (f0 :: f1 :: f2 :: f3 :: f4 :: f5 :: f6 :: f7 :: rest) =
  match row_ids (f0 :: f1 :: f2 :: f3 :: f4 :: f5 :: f6 :: f7 :: rest) with
  | Raise _ => Ok (Skip ValueError)
  | Ok (o, v) =>
      match ids !! o, ids !! v with
      | Some new_o, Some new_v =>
          Ok (Emit [str_of_int new_o; f1; f2; f3; f5; str_of_int new_v; f7; []; []])
      | _, _ => Raise KeyError
      end
  end.
Proof.
  rewrite row_ids_long. unfold transform_row, build_new_row, dict_get.
  cbn [length Nat.leb getitem lookup list_lookup rbind].
  destruct (py_int f0) as [o|e0] eqn:H0; cbn [rbind].
  - destruct (py_int f6) as [v|e6] eqn:H6; cbn [rbind].
    + destruct (ids !! o); cbn [rbind]; [|done].
      by destruct (ids !! v).
    + by rewrite (py_int_Raise _ _ H6).
  - by rewrite (py_int_Raise _ _ H0).
Qed.

Lemma transform_row_Emit ids row new_row :
  transform_row ids row = Ok (Emit new_row) <->
  (8 <= length row)%nat /\ transformed_from ids row new_row.
Proof.
  split.
  - intros H. assert (Hlen : (8 <= length row)%nat).
    { destruct (decide (8 <= length row)%nat); [done|].
      rewrite transform_row_short in H by lia. discriminate. }
    split; [done|].
    destruct (long_row _ Hlen) as (f0&f1&f2&f3&f4&f5&f6&f7&rest&->).
    rewrite transform_row_long, row_ids_long in H.
    destruct (py_int f0) as [o|] eqn:H0; [|discriminate].
    destruct (py_int f6) as [v|] eqn:H6; [|discriminate]. cbn [rbind] in H.
    destruct (ids !! o) as [no|] eqn:Ho; [|discriminate].
    destruct (ids !! v) as [nv|] eqn:Hv; [|discriminate].
    injection H as <-. by econstructor.
  - intros [_ H]. destruct H as [f0 f1 f2 f3 f4 f5 f6 f7 rest o v no nv H0 H6 Ho Hv].
    rewrite transform_row_long, row_ids_long, H0, H6. cbn [rbind].
    by rewrite Ho, Hv.
Qed.

Lemma transform_row_Skip ids row e :
  transform_row ids row = Ok (Skip e) ->
  e = ValueError /\ (8 <= length row)%nat /\
  ((exists f, row !! 0%nat = Some f /\ py_int f = Raise ValueError) \/
   (exists f, row !! 6%nat = Some f /\ py_int f = Raise ValueError)).
Proof.
  intros H. assert (Hlen : (8 <= length row)%nat).
  { destruct (decide (8 <= length row)%nat); [done|].
    rewrite transform_row_short in H by lia. discriminate. }
  destruct (long_row _ Hlen) as (f0&f1&f2&f3&f4&f5&f6&f7&rest&->).
  rewrite transform_row_long, row_ids_long in H.
  destruct (py_int f0) as [o|e0] eqn:H0.
  - destruct (py_int f6) as [v|e6] eqn:H6; cbn [rbind] in H.
    + destruct (ids !! o), (ids !! v); discriminate.
    + injection H as <-. rewrite (py_int_Raise _ _ H6) in H6.
      split; [done|]. split; [done|]. right. by exists f6.
  - injection H as <-. rewrite (py_int_Raise _ _ H0) in H0.
    split; [done|]. split; [done|]. left. by exists f0.
Qed.

Lemma transform_row_Raise ids row e :
  transform_row ids row = Raise e ->
  e = KeyError /\ (8 <= length row)%nat /\
  exists o v, row_ids row = Ok (o, v) /\ (ids !! o = None \/ ids !! v = None).
Proof.
  intros H. assert (Hlen : (8 <= length row)%nat).
  { destruct (decide (8 <= length row)%nat); [done|].
    rewrite transform_row_short in H by lia. discriminate. }
  destruct (long_row _ Hlen) as (f0&f1&f2&f3&f4&f5&f6&f7&rest&->).
  rewrite transform_row_long in H.
  destruct (row_ids _) as [[o v]|] eqn:Hids; [|discriminate].
  split; [|split; [done|]].
  - destruct (ids !! o), (ids !! v); congruence.
  - exists o, v. split; [done|].
    destruct (ids !! o); [|by left]. destruct (ids !! v); [discriminate|by right].
Qed.

Lemma transform_row_covered ids rows row :
  covers ids rows -> row ∈ rows -> exists act, transform_row ids row = Ok act.
Proof.
  intros Hcov Hin. destruct (transform_row ids row) as [act|e] eqn:H; [eauto|].
  apply transform_row_Raise in H as (_ & Hlen & o & v & Hids & Hnone).
  destruct (Hcov _ _ _ Hin Hlen Hids) as [[x Hx] [y Hy]].
  destruct Hnone; congruence.
Qed.

Lemma transform_rows_Ok ids rows out :
  transform_rows ids rows = Ok out ->
  Forall2 (transformed_from ids) (List.filter kept rows) out.
Proof.
  revert out. induction rows as [|row rows IH]; intros out; simpl.
  - intros [= <-]. constructor.
  - destruct (transform_row ids row) as [act|] eqn:Hrow; [|discriminate].
    destruct (transform_rows ids rows) as [out'|]; [|discriminate].
    cbn [rbind]. intros [= <-]. specialize (IH _ eq_refl).
    unfold kept at 1. destruct act as [new_row|e|].
    + apply transform_row_Emit in Hrow as [Hlen Hfrom].
      assert (Hk : ((8 <=? length row)%nat && is_ok (row_ids row)) = true).
      { apply andb_true_iff. split; [by apply Nat.leb_le|].
        destruct Hfrom. rewrite row_ids_long. by rewrite H, H0. }
      rewrite Hk. by constructor.
    + apply transform_row_Skip in Hrow as (_ & Hlen & Hfail).
      destruct (long_row _ Hlen) as (f0&f1&f2&f3&f4&f5&f6&f7&rest&->).
      rewrite row_ids_long.
      destruct Hfail as [(f & [= <-] & Hf)|(f & [= <-] & Hf)]; rewrite Hf.
      * by rewrite andb_false_r.
      * destruct (py_int f0); by rewrite andb_false_r.
    + assert (Hlen : (8 <=? length row)%nat = false).
      { unfold transform_row in Hrow.
        destruct (8 <=? length row)%nat; [|done]. by repeat case_match. }
      by rewrite Hlen.
Qed.

Lemma transform_rows_covered ids rows :
  covers ids rows -> exists out, transform_rows ids rows = Ok out.
Proof.
  induction rows as [|row rows IH]; intros Hcov; simpl; [eauto|].
  destruct (transform_row_covered ids (row :: rows) row) as [act ->];
    [done|by left|].
  destruct IH as [out ->]; [|cbn [rbind]; eauto].
  intros r o v Hin. apply Hcov. by right.
Qed.

(** ** Runs of [transform_species_csv] *)

Lemma first_pass_ids_row_ids row :
  (7 <= length row)%nat -> first_pass_ids row = row_ids row.
Proof.
  intros H. unfold first_pass_ids, row_ids.
  by replace (6 <? length row)%nat with true by (symmetry; apply Nat.ltb_lt; lia).
Qed.

Lemma first_pass_covers rows tape r tape' :
  first_pass id_init rows tape = Some (r, tape') ->
  exists st, r = Ok st /\ ids_ok st /\ covers (old_to_new_id st) rows.
Proof.
  intros H. apply first_pass_Some in H as (st & -> & Hok & _ & Hrows);
    [|apply ids_ok_init].
  exists st. split; [done|]. split; [done|].
  intros row o v Hin Hlen Hids. apply (Hrows row); [done|lia|].
  rewrite first_pass_ids_row_ids by lia. done.
Qed.

Lemma transform_species_csv_Some lines tape r tape' :
  transform_species_csv lines tape = Some (r, tape') ->
  exists st out,
    first_pass id_init (snd (parse_csv_file lines)) tape = Some (Ok st, tape')
    /\ transform_rows (old_to_new_id st) (snd (parse_csv_file lines)) = Ok out
    /\ r = Ok (Transformed (old_to_new_id st) out
                 (convert_booleans
                    (serialize (update_metadata (fst (parse_csv_file lines))) out))).
Proof.
  unfold transform_species_csv. destruct (parse_csv_file lines) as [metadata rows].
  cbn [fst snd]. intros H.
  apply bind_Some in H as [(e & H & _)|(st & tape1 & H & H1)].
  { by apply first_pass_covers in H as (? & ? & _). }
  pose proof H as (? & [= <-] & _ & Hcov)%first_pass_covers.
  destruct (transform_rows_covered _ _ Hcov) as [out Hout].
  rewrite Hout in H1. cbn in H1. injection H1 as <- <-. eauto.
Qed.

Lemma Forall2_elem_of_r {A B} (R : A -> B -> Prop) l k y :
  Forall2 R l k -> y ∈ k -> exists x, x ∈ l /\ R x y.
Proof.
  induction 1 as [|x y' l k HR _ IH]; [by intros ?%elem_of_nil|].
  intros [->|Hin]%elem_of_cons.
  - exists x. split; [by left|done].
  - destruct (IH Hin) as (x' & ? & ?). exists x'. split; [by right|done].
Qed.

Lemma elem_of_filter_In {A} (f : A -> bool) l x :
  x ∈ List.filter f l -> x ∈ l /\ f x = true.
Proof. rewrite !list_elem_of_In. apply filter_In. Qed.

Lemma transformed_rows_from lines tape t tape' new_row :
  transform_species_csv lines tape = Some (Ok t, tape') ->
  new_row ∈ transformed_rows t ->
  exists row, row ∈ snd (parse_csv_file lines) /\
    transformed_from (id_mapping t) row new_row.
Proof.
  intros (st & out & _ & Hout & [= ->])%transform_species_csv_Some Hin.
  cbn [transformed_rows id_mapping] in *.
  apply transform_rows_Ok in Hout.
  destruct (Forall2_elem_of_r _ _ _ _ Hout Hin) as (row & Hrow & Hfrom).
  apply elem_of_filter_In in Hrow as [Hrow _]. eauto.
Qed.

(** * The claims *)

(** C1. Whatever the rows and the draws, the mapping that the first pass
    builds is injective, and every new identifier it holds lies in
    [1, 2^64 - 10^10 - 1] and is recorded in the set of used identifiers. *)
Theorem first_pass_injective_in_range rows tape r tape' :
  first_pass id_init rows tape = Some (r, tape') ->
  exists st, r = Ok st /\
    (forall k1 k2 v, old_to_new_id st !! k1 = Some v ->
                     old_to_new_id st !! k2 = Some v -> k1 = k2) /\
    (forall k v, old_to_new_id st !! k = Some v ->
                 1 <= v <= 2 ^ 64 - 10 ^ 10 - 1) /\
    (forall k v, old_to_new_id st !! k = Some v -> v ∈ used_ids st).
Proof.
  intros (st & -> & [Hu Hr Hi] & _)%first_pass_covers.
  exists st. split; [done|]. split; [done|]. split; [|done]. apply Hr.
Qed.

Lemma first_pass_injective_in_range_witness :
  exists r tape',
    first_pass id_init ex_rows ex_tape = Some (r, tape') /\
    exists st, r = Ok st /\
      (forall k1 k2 v, old_to_new_id st !! k1 = Some v ->
                       old_to_new_id st !! k2 = Some v -> k1 = k2) /\
      (forall k v, old_to_new_id st !! k = Some v ->
                   1 <= v <= 2 ^ 64 - 10 ^ 10 - 1) /\
      (forall k v, old_to_new_id st !! k = Some v -> v ∈ used_ids st).
Proof.
  eexists _, _. split.
  - vm_compute. reflexivity.
  - apply (first_pass_injective_in_range ex_rows ex_tape _ []).
    vm_compute. reflexivity.
Defined.

(** C2. In every row that a run emits, the two identifier fields are the
    images, under the one mapping of the run, of the identifiers parsed
    from fields 0 and 6 of a raw row; when these two are the same integer,
    the two new fields are equal. *)
Theorem transformed_row_referential_integrity lines tape t tape' new_row :
  transform_species_csv lines tape = Some (Ok t, tape') ->
  new_row ∈ transformed_rows t ->
  exists row f0 f6 o v new_o new_v,
    row ∈ snd (parse_csv_file lines) /\
    row !! 0%nat = Some f0 /\ row !! 6%nat = Some f6 /\
    py_int f0 = Ok o /\ py_int f6 = Ok v /\
    id_mapping t !! o = Some new_o /\ id_mapping t !! v = Some new_v /\
    new_row !! 0%nat = Some (str_of_int new_o) /\
    new_row !! 5%nat = Some (str_of_int new_v) /\
    (o = v -> new_row !! 0%nat = new_row !! 5%nat).
Proof.
  intros Hrun Hin.
  destruct (transformed_rows_from _ _ _ _ _ Hrun Hin) as (row & Hrow & Hfrom).
  destruct Hfrom as [f0 f1 f2 f3 f4 f5 f6 f7 rest o v no nv H0 H6 Ho Hv].
  eexists _, f0, f6, o, v, no, nv. repeat (split; [done|]).
  intros ->. simpl. congruence.
Qed.

Lemma transformed_row_referential_integrity_witness :
  exists t tape' new_row,
    transform_species_csv ex_lines ex_tape = Some (Ok t, tape') /\
    new_row ∈ transformed_rows t /\
    exists row f0 f6 o v new_o new_v,
      row ∈ snd (parse_csv_file ex_lines) /\
      row !! 0%nat = Some f0 /\ row !! 6%nat = Some f6 /\
      py_int f0 = Ok o /\ py_int f6 = Ok v /\
      id_mapping t !! o = Some new_o /\ id_mapping t !! v = Some new_v /\
      new_row !! 0%nat = Some (str_of_int new_o) /\
      new_row !! 5%nat = Some (str_of_int new_v) /\
      (o = v -> new_row !! 0%nat = new_row !! 5%nat).
Proof.
  eexists _, _, _. split; [vm_compute; reflexivity|].
  split; [apply list_elem_of_here|].
  eapply (transformed_row_referential_integrity ex_lines ex_tape _ []).
  - vm_compute. reflexivity.
  - apply list_elem_of_here.
Defined.

Lemma kept_long row : kept row = true -> long_enough row = true.
Proof. unfold kept. by intros [? _]%andb_true_iff. Qed.

Lemma filter_kept_long rows :
  List.filter kept (List.filter long_enough rows) = List.filter kept rows.
Proof.
  induction rows as [|row rows IH]; [done|]. simpl.
  destruct (long_enough row) eqn:Hl; simpl.
  - by rewrite IH.
  - destruct (kept row) eqn:Hk; [|done]. apply kept_long in Hk. congruence.
Qed.

Lemma kept_false_iff row : kept row = false <-> dropped row.
Proof.
  unfold kept, dropped. destruct (8 <=? length row)%nat eqn:Hlen.
  - apply Nat.leb_le in Hlen.
    destruct (long_row _ Hlen) as (f0&f1&f2&f3&f4&f5&f6&f7&rest&->).
    rewrite row_ids_long. cbn [andb lookup list_lookup]. split.
    + destruct (py_int f0) as [o|e0] eqn:H0.
      * destruct (py_int f6) as [v|e6] eqn:H6; [done|]. intros _.
        right. right. exists f6. by rewrite <- (py_int_Raise _ _ H6).
      * intros _. right. left. exists f0. by rewrite <- (py_int_Raise _ _ H0).
    + intros [H|[(f & [= <-] & ->)|(f & [= <-] & ->)]]; [simpl in H; lia|done|].
      by destruct (py_int f0).
  - apply Nat.leb_nle in Hlen. split; [|done]. intros _. left. lia.
Qed.

(** C3. The rows of the output are, in order, the images of the data lines
    that are kept; a data line is not kept exactly when it has fewer than
    8 fields or when field 0 or field 6 does not parse as an integer; so
    the output has at most as many rows as the input has data lines. *)
Theorem row_count_law lines tape t tape' :
  transform_species_csv lines tape = Some (Ok t, tape') ->
  Forall2 (transformed_from (id_mapping t))
    (List.filter kept (map (split ";") (data_lines lines)))
    (transformed_rows t)
  /\ (forall line, kept (split ";" line) = false <-> dropped (split ";" line))
  /\ (length (transformed_rows t) <= length (data_lines lines))%nat.
Proof.
  intros (st & out & _ & Hout & [= ->])%transform_species_csv_Some.
  cbn [transformed_rows id_mapping].
  apply transform_rows_Ok in Hout.
  rewrite parse_csv_file_spec in Hout. cbn [snd] in Hout.
  rewrite filter_kept_long in Hout.
  split; [done|]. split; [intros; apply kept_false_iff|].
  rewrite <- (Forall2_length _ _ _ Hout).
  etrans; [apply filter_length_le|]. by rewrite length_map.
Qed.

Lemma row_count_law_witness :
  exists t tape',
    transform_species_csv ex_lines ex_tape = Some (Ok t, tape') /\
    Forall2 (transformed_from (id_mapping t))
      (List.filter kept (map (split ";") (data_lines ex_lines)))
      (transformed_rows t)
    /\ (forall line, kept (split ";" line) = false <-> dropped (split ";" line))
    /\ (length (transformed_rows t) <= length (data_lines ex_lines))%nat.
Proof.
  eexists _, _. split; [vm_compute; reflexivity|].
  apply (row_count_law ex_lines ex_tape _ []). vm_compute. reflexivity.
Defined.

(** C4. After the first pass over a list of rows, every row of the list
    with 8 fields or more whose fields 0 and 6 parse has both identifiers
    among the keys of the mapping; the second loop over the same list
    raises no exception, and it skips a row only when [int] rejects field
    0 or field 6 of it. *)
Theorem transformer_lookups_never_fail rows tape st tape' :
  first_pass id_init rows tape = Some (Ok st, tape') ->
  (forall row f0 f6 o v,
      row ∈ rows -> (8 <= length row)%nat ->
      row !! 0%nat = Some f0 -> row !! 6%nat = Some f6 ->
      py_int f0 = Ok o -> py_int f6 = Ok v ->
      is_Some (old_to_new_id st !! o) /\ is_Some (old_to_new_id st !! v))
  /\ (forall row, row ∈ rows ->
        exists act, transform_row (old_to_new_id st) row = Ok act)
  /\ (exists out, transform_rows (old_to_new_id st) rows = Ok out)
  /\ (forall row e, row ∈ rows ->
        transform_row (old_to_new_id st) row = Ok (Skip e) ->
        e = ValueError /\
        ((exists f, row !! 0%nat = Some f /\ py_int f = Raise ValueError) \/
         (exists f, row !! 6%nat = Some f /\ py_int f = Raise ValueError))).
Proof.
  intros (? & [= <-] & _ & Hcov)%first_pass_covers.
  split; [|split; [|split]].
  - intros row f0 f6 o v Hin Hlen H0 H6 Ho Hv. apply (Hcov row); [done..|].
    destruct (long_row _ Hlen) as (g0&g1&g2&g3&g4&g5&g6&g7&rest&->).
    injection H0 as ->. injection H6 as ->.
    by rewrite row_ids_long, Ho, Hv.
  - intros row Hin. by eapply transform_row_covered.
  - by apply transform_rows_covered.
  - intros row e _ H. apply transform_row_Skip in H as (He & _ & H). done.
Qed.

Lemma transformer_lookups_never_fail_witness :
  exists st tape',
    first_pass id_init ex_rows ex_tape = Some (Ok st, tape') /\
    (forall row f0 f6 o v,
        row ∈ ex_rows -> (8 <= length row)%nat ->
        row !! 0%nat = Some f0 -> row !! 6%nat = Some f6 ->
        py_int f0 = Ok o -> py_int f6 = Ok v ->
        is_Some (old_to_new_id st !! o) /\ is_Some (old_to_new_id st !! v))
    /\ (forall row, row ∈ ex_rows ->
          exists act, transform_row (old_to_new_id st) row = Ok act)
    /\ (exists out, transform_rows (old_to_new_id st) ex_rows = Ok out)
    /\ (forall row e, row ∈ ex_rows ->
          transform_row (old_to_new_id st) row = Ok (Skip e) ->
          e = ValueError /\
          ((exists f, row !! 0%nat = Some f /\ py_int f = Raise ValueError) \/
           (exists f, row !! 6%nat = Some f /\ py_int f = Raise ValueError))).
Proof.
  eexists _, _. split; [vm_compute; reflexivity|].
  apply (transformer_lookups_never_fail ex_rows ex_tape _ []).
  vm_compute. reflexivity.
Defined.

(** C5. A row that a run emits has exactly 9 fields: the new own
    identifier, fields 1, 2 and 3 of the raw row, its field 5, the new
    valid identifier, its field 7, and two empty fields. Field 4 and
    whatever follows field 7 have no part in it: a row that differs from
    the raw row only there is emitted as the same new row. *)
Theorem transformed_row_layout lines tape t tape' new_row :
  transform_species_csv lines tape = Some (Ok t, tape') ->
  new_row ∈ transformed_rows t ->
  exists row new_o new_v,
    row ∈ snd (parse_csv_file lines) /\
    length new_row = 9%nat /\
    new_row !! 0%nat = Some (str_of_int new_o) /\
    new_row !! 1%nat = row !! 1%nat /\
    new_row !! 2%nat = row !! 2%nat /\
    new_row !! 3%nat = row !! 3%nat /\
    new_row !! 4%nat = row !! 5%nat /\
    new_row !! 5%nat = Some (str_of_int new_v) /\
    new_row !! 6%nat = row !! 7%nat /\
    new_row !! 7%nat = Some [] /\
    new_row !! 8%nat = Some [] /\
    (forall author secundum,
        transform_row (id_mapping t)
          (take 4 row ++ author :: take 3 (drop 5 row) ++ secundum)
        = Ok (Emit new_row)).
Proof.
  intros Hrun Hin.
  destruct (transformed_rows_from _ _ _ _ _ Hrun Hin) as (row & Hrow & Hfrom).
  destruct Hfrom as [f0 f1 f2 f3 f4 f5 f6 f7 rest o v no nv H0 H6 Ho Hv].
  eexists _, no, nv. split; [done|]. repeat (split; [done|]).
  intros author secundum. cbn [take drop app].
  rewrite transform_row_long, row_ids_long, H0, H6. cbn [rbind].
  by rewrite Ho, Hv.
Qed.

Lemma transformed_row_layout_witness :
  exists t tape' new_row,
    transform_species_csv ex_lines ex_tape = Some (Ok t, tape') /\
    new_row ∈ transformed_rows t /\
    exists row new_o new_v,
      row ∈ snd (parse_csv_file ex_lines) /\
      length new_row = 9%nat /\
      new_row !! 0%nat = Some (str_of_int new_o) /\
      new_row !! 1%nat = row !! 1%nat /\
      new_row !! 2%nat = row !! 2%nat /\
      new_row !! 3%nat = row !! 3%nat /\
      new_row !! 4%nat = row !! 5%nat /\
      new_row !! 5%nat = Some (str_of_int new_v) /\
      new_row !! 6%nat = row !! 7%nat /\
      new_row !! 7%nat = Some [] /\
      new_row !! 8%nat = Some [] /\
      (forall author secundum,
          transform_row (id_mapping t)
            (take 4 row ++ author :: take 3 (drop 5 row) ++ secundum)
          = Ok (Emit new_row)).
Proof.
  eexists _, _, _. split; [vm_compute; reflexivity|].
  split; [apply list_elem_of_here|].
  eapply (transformed_row_layout ex_lines ex_tape _ []).
  - vm_compute. reflexivity.
  - apply list_elem_of_here.
Defined.

(** ** The conversion of the boolean tokens *)

Lemma startswith_app_short p x y :
  (length p <= length x)%nat -> startswith p (x ++ y) = true -> startswith p x = true.
Proof.
  revert x. induction p as [|a p IH]; intros [|c x]; simpl; try done; [lia|].
  intros Hlen [-> H]%andb_true_iff. apply IH; [lia|done].
Qed.

(** The leftmost occurrence is replaced, and the scan resumes behind it. *)
Lemma replace_first_match old new a b :
  old <> [] ->
  contains old (a ++ removelast old) = false ->
  replace old new (a ++ old ++ b) = a ++ new ++ replace old new b.
Proof.
  intros Hne. induction a as [|c a IH]; intros Hc.
  - simpl. rewrite replace_match by (done || apply startswith_self_app).
    by rewrite drop_app_length.
  - apply contains_cons_false in Hc as [Hs Hc].
    change ((c :: a) ++ old ++ b) with (c :: a ++ old ++ b).
    rewrite replace_nomatch; [simpl; by rewrite IH|].
    destruct (startswith old (c :: a ++ old ++ b)) eqn:E; [|done].
    rewrite <- Hs. symmetry.
    assert (Hl : length old = S (length (removelast old))).
    { rewrite (app_removelast_last c Hne) at 1. rewrite length_app. simpl. lia. }
    apply (startswith_app_short old ((c :: a) ++ removelast old)
             (drop (length (removelast old)) old ++ b)).
    + rewrite length_app. simpl. lia.
    + rewrite <- E. f_equal. simpl. f_equal. rewrite <- !app_assoc. f_equal.
      rewrite app_assoc. f_equal.
      rewrite (app_removelast_last c Hne) at 3.
      rewrite drop_app_length. symmetry. apply app_removelast_last. done.
Qed.

Lemma write_lines_cons line lines :
  write_lines (line :: lines) = line ++ newline ++ write_lines lines.
Proof. unfold write_lines. simpl. by rewrite <- app_assoc. Qed.

Lemma write_lines_app l1 l2 :
  write_lines (l1 ++ l2) = write_lines l1 ++ write_lines l2.
Proof. unfold write_lines. by rewrite map_app, concat_app. Qed.

Lemma wahr_nonempty : lit ";WAHR;" <> [].
Proof. discriminate. Qed.

Lemma falsch_nonempty : lit ";FALSCH;" <> [].
Proof. discriminate. Qed.

Lemma newline_not_in_tokens :
  ("010"%char ∉ lit ";WAHR;") /\ ("010"%char ∉ lit ";FALSCH;").
Proof. split; rewrite list_elem_of_In; simpl; intuition discriminate. Qed.

Lemma convert_booleans_line a b :
  convert_booleans (a ++ newline ++ b) =
  convert_booleans a ++ newline ++ convert_booleans b.
Proof.
  destruct newline_not_in_tokens as [Hw Hf].
  unfold convert_booleans.
  change (a ++ newline ++ b) with (a ++ "010"%char :: b).
  by rewrite !replace_line.
Qed.

Lemma convert_booleans_write_lines lines :
  convert_booleans (write_lines lines) = write_lines (map convert_booleans lines).
Proof.
  induction lines as [|line lines IH]; [done|].
  cbn [map]. rewrite !write_lines_cons, convert_booleans_line. by rewrite IH.
Qed.

Lemma convert_booleans_absent s :
  contains (lit ";WAHR;") s = false -> contains (lit ";FALSCH;") s = false ->
  convert_booleans s = s.
Proof.
  intros Hw Hf. unfold convert_booleans.
  rewrite (replace_absent _ _ s) by done. by apply replace_absent.
Qed.

(** When no two occurrences of a token overlap, none is left. *)
Lemma convert_booleans_clean s :
  contains (lit ";WAHR;WAHR;") s = false ->
  contains (lit ";FALSCH;FALSCH;") s = false ->
  contains (lit ";WAHR;") (convert_booleans s) = false /\
  contains (lit ";FALSCH;") (convert_booleans s) = false.
Proof.
  intros Hw Hf. unfold convert_booleans. split.
  - destruct (contains _ (replace _ _ (replace _ _ s))) eqn:E; [|done].
    apply (replace_contains _ _ falsch_nonempty _ (lit ";WAHR;")) in E;
      [|by vm_compute].
    apply (replace_contains _ _ wahr_nonempty _ (lit ";WAHR;WAHR;")) in E;
      [|by vm_compute].
    congruence.
  - destruct (contains _ (replace _ _ (replace _ _ s))) eqn:E; [|done].
    apply (replace_contains _ _ falsch_nonempty _ (lit ";FALSCH;FALSCH;")) in E;
      [|by vm_compute].
    apply (replace_contains _ _ wahr_nonempty _ (lit ";FALSCH;FALSCH;")) in E;
      [|by vm_compute].
    congruence.
Qed.

Lemma serialize_write_lines new_metadata rows :
  serialize new_metadata rows =
  write_lines (new_metadata ++ new_header :: map (join (lit ";")) rows).
Proof.
  unfold serialize. rewrite write_lines_app, write_lines_cons.
  by rewrite <- !app_assoc.
Qed.

Lemma convert_booleans_serialize new_metadata rows :
  convert_booleans (serialize new_metadata rows) =
  write_lines (map convert_booleans new_metadata)
  ++ (new_header ++ newline)
  ++ write_lines (map (fun row => convert_booleans (join (lit ";") row)) rows).
Proof.
  rewrite serialize_write_lines, convert_booleans_write_lines, map_app.
  cbn [map]. rewrite write_lines_app, write_lines_cons, !map_map.
  replace (convert_booleans new_header) with new_header by (by vm_compute).
  by rewrite <- !app_assoc.
Qed.

Lemma output_text_lines lines tape t tape' :
  transform_species_csv lines tape = Some (Ok t, tape') ->
  output_text t =
  write_lines (map (fun line => convert_booleans (update_metadata_line line))
                 (fst (parse_csv_file lines)))
  ++ (new_header ++ newline)
  ++ write_lines (map (fun row => convert_booleans (join (lit ";") row))
                    (transformed_rows t)).
Proof.
  intros (st & out & _ & _ & [= ->])%transform_species_csv_Some.
  cbn [output_text transformed_rows]. unfold update_metadata.
  by rewrite convert_booleans_serialize, map_map.
Qed.

(** C6. The run on a file whose data row reads WAHR both in the species
    field and in the synonym flag: the serialized row holds [;WAHR;] at
    two places that share a [;]; [str.replace] rewrites the first and
    resumes behind it, so the second one is still there in the output
    and the synonym flag of the written row reads WAHR, not TRUE. *)
Lemma booleans_every_occurrence_counterexample :
  exists t,
    transform_species_csv overlap_lines [5] = Some (Ok t, []) /\
    serialize (update_metadata (fst (parse_csv_file overlap_lines)))
      (transformed_rows t)
    = new_header ++ newline ++ lit "5;Foo;Bar;WAHR;WAHR;5;Foo;;" ++ newline /\
    output_text t
    = new_header ++ newline ++ lit "5;Foo;Bar;TRUE;WAHR;5;Foo;;" ++ newline /\
    contains (lit ";WAHR;") (output_text t) = true.
Proof. eexists. split; [by vm_compute|]. by vm_compute. Qed.

(** The output is the serialized text taken through the two
    replacements, as one text; each replacement rewrites the leftmost
    occurrence of its token and resumes behind it; when the serialized
    text holds no two overlapping occurrences of a token, the output holds
    no occurrence of either token, wherever it stood; a text without the
    tokens is left as it is. *)
Theorem booleans_converted_on_whole_text lines tape t tape' :
  transform_species_csv lines tape = Some (Ok t, tape') ->
  let text := serialize (update_metadata (fst (parse_csv_file lines)))
                (transformed_rows t) in
  output_text t
  = replace (lit ";FALSCH;") (lit ";FALSE;")
      (replace (lit ";WAHR;") (lit ";TRUE;") text)
  /\ (forall a b, contains (lit ";WAHR;") (a ++ lit ";WAHR") = false ->
        replace (lit ";WAHR;") (lit ";TRUE;") (a ++ lit ";WAHR;" ++ b)
        = a ++ lit ";TRUE;" ++ replace (lit ";WAHR;") (lit ";TRUE;") b)
  /\ (forall a b, contains (lit ";FALSCH;") (a ++ lit ";FALSCH") = false ->
        replace (lit ";FALSCH;") (lit ";FALSE;") (a ++ lit ";FALSCH;" ++ b)
        = a ++ lit ";FALSE;" ++ replace (lit ";FALSCH;") (lit ";FALSE;") b)
  /\ (contains (lit ";WAHR;WAHR;") text = false ->
      contains (lit ";FALSCH;FALSCH;") text = false ->
      contains (lit ";WAHR;") (output_text t) = false /\
      contains (lit ";FALSCH;") (output_text t) = false)
  /\ (contains (lit ";WAHR;") text = false ->
      contains (lit ";FALSCH;") text = false ->
      output_text t = text).
Proof.
  intros (st & out & _ & _ & [= ->])%transform_species_csv_Some.
  cbn [output_text transformed_rows]. split; [done|].
  split; [intros a b; by apply replace_first_match|].
  split; [intros a b; by apply replace_first_match|].
  split; [apply convert_booleans_clean|apply convert_booleans_absent].
Qed.

Lemma booleans_converted_on_whole_text_witness :
  exists t tape',
    transform_species_csv ex_lines ex_tape = Some (Ok t, tape') /\
    let text := serialize (update_metadata (fst (parse_csv_file ex_lines)))
                  (transformed_rows t) in
    output_text t
    = replace (lit ";FALSCH;") (lit ";FALSE;")
        (replace (lit ";WAHR;") (lit ";TRUE;") text)
    /\ (forall a b, contains (lit ";WAHR;") (a ++ lit ";WAHR") = false ->
          replace (lit ";WAHR;") (lit ";TRUE;") (a ++ lit ";WAHR;" ++ b)
          = a ++ lit ";TRUE;" ++ replace (lit ";WAHR;") (lit ";TRUE;") b)
    /\ (forall a b, contains (lit ";FALSCH;") (a ++ lit ";FALSCH") = false ->
          replace (lit ";FALSCH;") (lit ";FALSE;") (a ++ lit ";FALSCH;" ++ b)
          = a ++ lit ";FALSE;" ++ replace (lit ";FALSCH;") (lit ";FALSE;") b)
    /\ (contains (lit ";WAHR;WAHR;") text = false ->
        contains (lit ";FALSCH;FALSCH;") text = false ->
        contains (lit ";WAHR;") (output_text t) = false /\
        contains (lit ";FALSCH;") (output_text t) = false)
    /\ (contains (lit ";WAHR;") text = false ->
        contains (lit ";FALSCH;") text = false ->
        output_text t = text).
Proof.
  eexists _, _. split; [vm_compute; reflexivity|].
  apply (booleans_converted_on_whole_text ex_lines ex_tape _ []).
  vm_compute. reflexivity.
Defined.

(** ** The metadata lines *)

Lemma split1_semicolon line :
  has_semicolon line = true ->
  exists key value,
    line = key ++ ";"%char :: value /\ (";"%char ∉ key) /\
    split1 ";" line = [key; value].
Proof.
  induction line as [|c line IH]; [done|].
  unfold has_semicolon. cbn [contains lit list_ascii_of_string startswith].
  rewrite andb_true_r. destruct (ascii_eqb ";" c) eqn:E.
  - intros _. apply ascii_eqb_true in E as <-. exists [], line.
    split; [done|]. split; [apply not_elem_of_nil|done].
  - simpl. intros (key & value & -> & Hkey & Hsplit)%IH.
    exists (c :: key), value. split; [done|]. split.
    + apply not_elem_of_cons. split; [|done]. intros Heq.
      apply ascii_eqb_true in Heq. congruence.
    + assert (E' : ascii_eqb c ";" = false).
      { unfold ascii_eqb in *. by rewrite Ascii.eqb_sym. }
      cbn [split1]. by rewrite E', Hsplit.
Qed.

Lemma metadata_has_semicolon lines line :
  line ∈ fst (parse_csv_file lines) -> has_semicolon line = true.
Proof.
  rewrite parse_csv_file_spec. cbn [fst]. unfold semicolon_lines.
  by intros [_ ?]%elem_of_filter_In.
Qed.

(** C7, as stated, fails: both lines are metadata lines, and neither
    [A;WAHR;B] nor [SPECIES_LU;WAHR;x] is in the output. *)
Lemma metadata_byte_identical_counterexample :
  exists t,
    transform_species_csv metadata_only_lines [] = Some (Ok t, []) /\
    fst (parse_csv_file metadata_only_lines)
    = [lit "A;WAHR;B"; lit "SPECIES_LU_VERSION;WAHR;x"] /\
    output_text t
    = lit "A;TRUE;B" ++ newline ++ lit "SPECIES_LU;TRUE;x" ++ newline
      ++ new_header ++ newline /\
    contains (lit "A;WAHR;B") (output_text t) = false /\
    contains (lit "SPECIES_LU;WAHR;x") (output_text t) = false.
Proof. eexists. split; [by vm_compute|]. by vm_compute. Qed.

(** C7, amended. A metadata line that begins with SPECIES_LU_VERSION is
    rewritten to SPECIES_LU, a [;] and everything behind the first [;] of
    the line; every other metadata line is written as it is; the output
    begins with the lines so written, each taken through the conversion of
    the boolean tokens, which leaves a line without [;WAHR;] and
    [;FALSCH;] as it is. *)
Theorem metadata_lines_in_output lines tape t tape' :
  transform_species_csv lines tape = Some (Ok t, tape') ->
  (exists rest,
      output_text t =
      write_lines (map (fun line => convert_booleans (update_metadata_line line))
                     (fst (parse_csv_file lines))) ++ rest)
  /\ (forall line, line ∈ fst (parse_csv_file lines) ->
        (startswith (lit "SPECIES_LU_VERSION") line = true ->
         exists key value,
           line = key ++ ";"%char :: value /\ (";"%char ∉ key) /\
           update_metadata_line line = lit "SPECIES_LU;" ++ value)
        /\ (startswith (lit "SPECIES_LU_VERSION") line = false ->
            update_metadata_line line = line)
        /\ (contains (lit ";WAHR;") (update_metadata_line line) = false ->
            contains (lit ";FALSCH;") (update_metadata_line line) = false ->
            convert_booleans (update_metadata_line line)
            = update_metadata_line line)).
Proof.
  intros Hrun. split.
  - eexists. by apply (output_text_lines _ _ _ _ Hrun).
  - intros line Hsemi%metadata_has_semicolon. split; [|split].
    + intros Hkey. destruct (split1_semicolon _ Hsemi) as (key & value & -> & Hk & Hs).
      exists key, value. split; [done|]. split; [done|].
      unfold update_metadata_line. by rewrite Hkey, Hs.
    + intros Hkey. unfold update_metadata_line. by rewrite Hkey.
    + apply convert_booleans_absent.
Qed.

Lemma metadata_lines_in_output_witness :
  exists t tape',
    transform_species_csv ex_lines ex_tape = Some (Ok t, tape') /\
    (exists rest,
        output_text t =
        write_lines (map (fun line => convert_booleans (update_metadata_line line))
                       (fst (parse_csv_file ex_lines))) ++ rest)
    /\ (forall line, line ∈ fst (parse_csv_file ex_lines) ->
          (startswith (lit "SPECIES_LU_VERSION") line = true ->
           exists key value,
             line = key ++ ";"%char :: value /\ (";"%char ∉ key) /\
             update_metadata_line line = lit "SPECIES_LU;" ++ value)
          /\ (startswith (lit "SPECIES_LU_VERSION") line = false ->
              update_metadata_line line = line)
          /\ (contains (lit ";WAHR;") (update_metadata_line line) = false ->
              contains (lit ";FALSCH;") (update_metadata_line line) = false ->
              convert_booleans (update_metadata_line line)
              = update_metadata_line line)).
Proof.
  eexists _, _. split; [vm_compute; reflexivity|].
  apply (metadata_lines_in_output ex_lines ex_tape _ []).
  vm_compute. reflexivity.
Defined.

(** ** The header line *)

Lemma parse_lines_header_found st lines :
  header_found st = true -> header_found (fold_left parse_line lines st) = true.
Proof.
  revert st. induction lines as [|raw lines IH]; intros st Hh; [done|].
  simpl. by apply IH, parse_line_header_found.
Qed.

(** C8, as stated, fails: this line is not blank and holds the three
    substrings, the parser has not found the header yet, and the line is
    not taken for the header; the data line behind it is stored as a
    metadata line. *)
Lemma header_without_semicolon_counterexample :
  header_found parser_init = false /\
  nonblank (strip comma_header) = true /\
  contains (lit "SPECIES_NR") (strip comma_header) = true /\
  contains (lit "NAME") (strip comma_header) = true /\
  contains (lit "GENUS") (strip comma_header) = true /\
  parse_line parser_init comma_header = parser_init /\
  parse_csv_file [comma_header; lit "1;Alpha;Genus1;sp1;AuthorA;FALSCH;1;Alpha"]
  = ([lit "1;Alpha;Genus1;sp1;AuthorA;FALSCH;1;Alpha"], []).
Proof. by vm_compute. Qed.

(** C8, amended. Before the header is found, a line that is not blank is
    taken for the header exactly when it holds a [;] and the three
    substrings SPECIES_NR, NAME and GENUS; the header is consumed, nothing
    of it is stored; another line with a [;] is stored as a metadata line;
    a line without [;] changes nothing; and once the header is found it
    stays found. *)
Theorem header_recognition st raw :
  header_found st = false -> nonblank (strip raw) = true ->
  (header_found (parse_line st raw) = true <->
   has_semicolon (strip raw) = true /\
   contains (lit "SPECIES_NR") (strip raw) = true /\
   contains (lit "NAME") (strip raw) = true /\
   contains (lit "GENUS") (strip raw) = true)
  /\ (header_found (parse_line st raw) = true ->
      parse_line st raw = ParserState (metadata_lines st) (data_rows st) true)
  /\ (has_semicolon (strip raw) = true ->
      header_found (parse_line st raw) = false ->
      parse_line st raw
      = ParserState (metadata_lines st ++ [strip raw]) (data_rows st) false)
  /\ (has_semicolon (strip raw) = false -> parse_line st raw = st)
  /\ (forall st' lines, header_found st' = true ->
        header_found (fold_left parse_line lines st') = true).
Proof.
  intros Hh Hnb. rewrite parse_line_before_header by done.
  unfold looks_like_header.
  destruct (has_semicolon (strip raw)); [|rewrite Hh];
    destruct (contains (lit "SPECIES_NR") (strip raw));
    destruct (contains (lit "NAME") (strip raw));
    destruct (contains (lit "GENUS") (strip raw)); cbn [andb header_found].
  all: split; [intuition congruence|].
  all: split; [done|].
  all: split; [done|].
  all: split; [done|apply parse_lines_header_found].
Qed.

Lemma header_recognition_witness :
  (header_found (parse_line parser_init (lit " SPECIES_NR;NAME;GENUS ")) = true <->
   has_semicolon (strip (lit " SPECIES_NR;NAME;GENUS ")) = true /\
   contains (lit "SPECIES_NR") (strip (lit " SPECIES_NR;NAME;GENUS ")) = true /\
   contains (lit "NAME") (strip (lit " SPECIES_NR;NAME;GENUS ")) = true /\
   contains (lit "GENUS") (strip (lit " SPECIES_NR;NAME;GENUS ")) = true)
  /\ header_found (parse_line parser_init (lit " SPECIES_NR;NAME;GENUS ")) = true.
Proof.
  split; [|by vm_compute].
  apply (header_recognition parser_init (lit " SPECIES_NR;NAME;GENUS "));
    vm_compute; reflexivity.
Defined.

(** ** Rows with too few fields in the first pass *)


(** The guard of the first loop passes over a row with fewer than 7
    fields: the mapping and the set of used identifiers stay as they are
    and no draw is read. A row with 7 fields or more has its valid
    identifier parsed from field 6, as the second loop does; and the
    parser hands over only rows with 8 fields or more. *)
Lemma first_pass_short_row st row tape :
  ((length row < 7)%nat -> first_pass_row st row tape = Some (Ok st, tape))
  /\ ((7 <= length row)%nat -> first_pass_ids row = row_ids row)
  /\ (forall lines row', row' ∈ snd (parse_csv_file lines) ->
        (8 <= length row')%nat).
Proof.
  split; [|split].
  - intros Hlen. unfold first_pass_row.
    destruct (7 <=? length row)%nat eqn:E; [|done]. apply Nat.leb_le in E. lia.
  - apply first_pass_ids_row_ids.
  - intros lines row' Hin%list_elem_of_In. by eapply data_rows_long.
Qed.

(** ** Inputs without a header *)

Lemma elem_of_lstrip c s : is_space c = false -> c ∈ lstrip s <-> c ∈ s.
Proof.
  intros Hc. induction s as [|x s IH]; [done|]. simpl.
  destruct (is_space x) eqn:Hx; [|done].
  rewrite IH, elem_of_cons. split; [by right|]. intros [->|?]; [congruence|done].
Qed.

Lemma elem_of_strip c s : is_space c = false -> c ∈ strip s <-> c ∈ s.
Proof.
  intros Hc. unfold strip, rstrip.
  by rewrite elem_of_lstrip, elem_of_reverse, elem_of_lstrip, elem_of_reverse.
Qed.

Lemma contains_char c s : contains [c] s = true <-> c ∈ s.
Proof.
  rewrite contains_spec. split.
  - intros (a & b & ->). apply elem_of_app. right. by left.
  - intros (a & b & ->)%list_elem_of_split. by exists a, b.
Qed.

Lemma has_semicolon_strip s : has_semicolon (strip s) = has_semicolon s.
Proof.
  unfold has_semicolon. change (lit ";") with [";"%char].
  destruct (contains _ s) eqn:E.
  - apply contains_char. apply elem_of_strip; [done|]. by apply contains_char.
  - destruct (contains _ (strip s)) eqn:E'; [|done]. rewrite <- E. symmetry.
    apply contains_char. apply contains_char in E'.
    by apply (elem_of_strip ";"%char s eq_refl).
Qed.

Lemma no_header_lines lines :
  Forall (fun line => looks_like_header line = false) lines ->
  lines_before_header lines = lines /\ lines_after_header lines = [].
Proof.
  induction 1 as [|raw lines Hraw _ [IH1 IH2]]; [done|]. simpl.
  assert (Hh : is_header_line raw = false).
  { unfold is_header_line. destruct (looks_like_header (strip raw)) eqn:E.
    - apply looks_like_header_strip in E. congruence.
    - apply andb_false_r. }
  by rewrite Hh, IH1, IH2.
Qed.

(** C10. When no line of the input holds the three substrings SPECIES_NR,
    NAME and GENUS at once, every run ends without an exception and reads
    no draw; every stripped line that holds a [;] (the stripped line holds
    one exactly when the line does) is a metadata line, there is no data
    row, and the output is the metadata lines, rewritten and taken through
    the conversion of the boolean tokens, followed by the new header
    line. *)
Theorem no_header_only_metadata lines tape :
  Forall (fun line => looks_like_header line = false) lines ->
  transform_species_csv lines tape =
    Some (Ok (Transformed ∅ []
                (write_lines
                   (map (fun line => convert_booleans (update_metadata_line line))
                      (semicolon_lines lines))
                 ++ new_header ++ newline)),
          tape)
  /\ parse_csv_file lines = (semicolon_lines lines, [])
  /\ (forall line, line ∈ lines ->
        has_semicolon (strip line) = has_semicolon line /\
        (has_semicolon line = true -> strip line ∈ semicolon_lines lines)).
Proof.
  intros [Hb Ha]%no_header_lines.
  assert (Hparse : parse_csv_file lines = (semicolon_lines lines, [])).
  { rewrite parse_csv_file_spec. unfold data_lines. by rewrite Hb, Ha. }
  split; [|split; [done|]].
  - unfold transform_species_csv. rewrite Hparse. cbn.
    rewrite convert_booleans_serialize. unfold update_metadata.
    rewrite map_map. cbn [map write_lines concat]. by rewrite app_nil_r.
  - intros line Hin. split; [apply has_semicolon_strip|]. intros Hsemi.
    unfold semicolon_lines. apply list_elem_of_In, filter_In. split.
    + apply in_map. by apply list_elem_of_In.
    + by rewrite has_semicolon_strip.
Qed.

Lemma no_header_only_metadata_witness :
  Forall (fun line => looks_like_header line = false) headerless_lines /\
  transform_species_csv headerless_lines ex_tape =
    Some (Ok (Transformed ∅ []
                (lit "SPECIES_LU;3.2" ++ newline
                 ++ lit "1;Alpha;Genus1;sp1;AuthorA;TRUE;1;Alpha;SecA" ++ newline
                 ++ lit "NAME;GENUS" ++ newline
                 ++ new_header ++ newline)),
          ex_tape).
Proof.
  assert (H : Forall (fun line => looks_like_header line = false) headerless_lines).
  { repeat constructor. }
  split; [exact H|].
  destruct (no_header_only_metadata headerless_lines ex_tape H) as [-> _].
  vm_compute. reflexivity.
Defined.

(** ** Runs exist *)

Lemma max_val_pos : 0 < max_val.
Proof. reflexivity. Qed.

(** As long as fewer than [max_val] identifiers are in use, a draw can
    return one that is not. *)
Lemma unused_id_exists (used : gset Z) :
  Z.of_nat (size used) < max_val ->
  exists v, 1 <= v <= max_val /\ v ∉ used.
Proof.
  intros Hsize.
  destruct (decide (Forall (fun v => v ∈ used) (seqZ 1 max_val))) as [Hall|Hex].
  - exfalso.
    assert (Hsub : list_to_set (seqZ 1 max_val) ⊆ used).
    { intros v Hv%elem_of_list_to_set. rewrite Forall_forall in Hall. by apply Hall. }
    apply subseteq_size in Hsub.
    rewrite size_list_to_set, length_seqZ in Hsub by apply NoDup_seqZ. lia.
  - apply not_Forall_Exists in Hex; [|apply _].
    apply Exists_exists in Hex as (v & Hv%elem_of_seqZ & Hnot).
    exists v. split; [lia|done].
Qed.

Lemma assign_new_id_runs old st :
  Z.of_nat (size (used_ids st)) < max_val ->
  exists pre st',
    (forall u, assign_new_id old st (pre ++ u) = Some (Ok st', u)) /\
    (size (used_ids st') <= S (size (used_ids st)))%nat.
Proof.
  intros Hsize. unfold assign_new_id.
  destruct (old_to_new_id st !! old) as [v0|].
  - exists [], st. split; [done|lia].
  - destruct (unused_id_exists _ Hsize) as (v & Hv & Hfresh).
    exists [v]. eexists. split.
    + intros u. unfold bind, generate_64bit_id, randint. cbn [app length].
      replace ((1 <=? v) && (v <=? max_val)) with true
        by (symmetry; apply andb_true_iff; split; apply Z.leb_le; lia).
      cbn [redraw_while_used]. rewrite decide_False by done. done.
    + cbn [used_ids]. rewrite size_union.
      * by rewrite size_singleton.
      * by apply disjoint_singleton_l.
Qed.

Lemma first_pass_row_runs st row :
  Z.of_nat (size (used_ids st)) + 1 < max_val ->
  exists pre st',
    (forall u, first_pass_row st row (pre ++ u) = Some (Ok st', u)) /\
    (size (used_ids st') <= 2 + size (used_ids st))%nat.
Proof.
  intros Hsize. unfold first_pass_row.
  destruct (7 <=? length row)%nat; [|exists [], st; split; [done|lia]].
  destruct (first_pass_ids row) as [[o v]|e] eqn:Hids.
  - destruct (assign_new_id_runs o st) as (pre1 & st1 & Hrun1 & Hs1); [lia|].
    destruct (assign_new_id_runs v st1) as (pre2 & st2 & Hrun2 & Hs2); [lia|].
    exists (pre1 ++ pre2), st2. split; [|lia].
    intros u. unfold bind. by rewrite <- app_assoc, Hrun1, Hrun2.
  - rewrite (first_pass_ids_caught _ _ Hids). exists [], st. split; [done|lia].
Qed.

Lemma first_pass_runs st rows :
  Z.of_nat (size (used_ids st)) + 2 * Z.of_nat (length rows) < max_val ->
  exists tape st', first_pass st rows tape = Some (Ok st', []).
Proof.
  revert st. induction rows as [|row rows IH]; intros st Hsize.
  - by exists [], st.
  - cbn [length] in Hsize.
    destruct (first_pass_row_runs st row) as (pre & st1 & Hrun & Hs1); [lia|].
    destruct (IH st1) as (tape & st2 & Hrest); [lia|].
    exists (pre ++ tape), st2. cbn [first_pass]. unfold bind. by rewrite Hrun.
Qed.

Lemma data_rows_length lines :
  (length (snd (parse_csv_file lines)) <= length lines)%nat.
Proof.
  rewrite parse_csv_file_spec. cbn [snd]. unfold data_lines.
  etrans; [apply filter_length_le|]. rewrite length_map.
  etrans; [apply filter_length_le|]. rewrite length_map.
  induction lines as [|raw lines IH]; [done|]. simpl.
  destruct (is_header_line raw); lia.
Qed.

(** Every input of fewer than [max_val / 2] lines has a run that ends
    without an exception. *)
Lemma transform_species_csv_runs lines :
  2 * Z.of_nat (length lines) < max_val ->
  exists tape t, transform_species_csv lines tape = Some (Ok t, []).
Proof.
  intros Hlen. pose proof (data_rows_length lines) as Hrows.
  destruct (first_pass_runs id_init (snd (parse_csv_file lines)))
    as (tape & st & Hrun).
  { cbn [id_init used_ids]. rewrite size_empty. lia. }
  pose proof Hrun as (? & [= <-] & _ & Hcov)%first_pass_covers.
  destruct (transform_rows_covered _ _ Hcov) as [out Hout].
  exists tape. unfold transform_species_csv.
  destruct (parse_csv_file lines) as [metadata rows]. cbn [snd] in *.
  eexists. unfold bind. rewrite Hrun, Hout. reflexivity.
Qed.

(** * Further properties *)

(** ** Fields and lines *)

Lemma join_semicolon f0 rest :
  join (lit ";") (f0 :: rest) = f0 ++ concat (map (cons ";"%char) rest).
Proof.
  revert f0. induction rest as [|g rest IH]; intros f0.
  - simpl. by rewrite app_nil_r.
  - change (join (lit ";") (f0 :: g :: rest))
      with (f0 ++ lit ";" ++ join (lit ";") (g :: rest)).
    by rewrite IH.
Qed.

Lemma split_nonempty sep s : split sep s <> [].
Proof. destruct s as [|c s]; simpl; [done|]. by repeat case_match. Qed.

Lemma split_no_sep s : no_semicolon s -> split ";" s = [s].
Proof.
  unfold no_semicolon. induction s as [|c s IH]; [done|].
  intros [Hc Hs]%not_elem_of_cons. simpl.
  destruct (ascii_eqb c ";") eqn:E; [by apply ascii_eqb_true in E|].
  by rewrite IH.
Qed.

Lemma split_app_sep f t :
  no_semicolon f -> split ";" (f ++ ";"%char :: t) = f :: split ";" t.
Proof.
  unfold no_semicolon. induction f as [|c f IH]; [done|].
  intros [Hc Hf]%not_elem_of_cons. simpl.
  destruct (ascii_eqb c ";") eqn:E; [by apply ascii_eqb_true in E|].
  by rewrite IH.
Qed.

Lemma split_no_semicolon s : Forall no_semicolon (split ";" s).
Proof.
  induction s as [|c s IH]; simpl.
  - repeat constructor. apply not_elem_of_nil.
  - destruct (ascii_eqb c ";") eqn:E.
    + constructor; [apply not_elem_of_nil|done].
    + destruct (split ";" s) as [|h t] eqn:Hs; [by apply split_nonempty in Hs|].
      inversion IH as [|? ? Hh Ht]; subst. constructor; [|done].
      apply not_elem_of_cons. split; [|done]. intros <-.
      unfold ascii_eqb in E. by rewrite Ascii.eqb_refl in E.
Qed.

Lemma join_split s : join (lit ";") (split ";" s) = s.
Proof.
  induction s as [|c s IH]; [done|]. cbn [split].
  destruct (ascii_eqb c ";") eqn:E.
  - apply ascii_eqb_true in E as ->.
    destruct (split ";" s) as [|h t] eqn:Hs; [by apply split_nonempty in Hs|].
    change (join (lit ";") ([] :: h :: t)) with (";"%char :: join (lit ";") (h :: t)).
    by rewrite IH.
  - destruct (split ";" s) as [|h t] eqn:Hs; [by apply split_nonempty in Hs|].
    rewrite <- IH. by destruct t.
Qed.

Lemma split_join fields :
  fields <> [] -> Forall no_semicolon fields ->
  split ";" (join (lit ";") fields) = fields.
Proof.
  intros Hne Hall. induction Hall as [|f rest Hf Hrest IH]; [done|].
  destruct rest as [|g rest].
  - by apply split_no_sep.
  - change (join (lit ";") (f :: g :: rest))
      with (f ++ ";"%char :: join (lit ";") (g :: rest)).
    rewrite split_app_sep by done. by rewrite IH.
Qed.

(** ** The conversion of the boolean tokens, field by field *)

Lemma replace_copy old' new f s :
  no_semicolon f ->
  replace (";"%char :: old') new (f ++ s) = f ++ replace (";"%char :: old') new s.
Proof.
  unfold no_semicolon. induction f as [|c f IH]; [done|].
  intros [Hc Hf]%not_elem_of_cons. simpl.
  rewrite replace_nomatch; [by rewrite IH|]. cbn [startswith].
  destruct (ascii_eqb ";" c) eqn:E; [by apply ascii_eqb_true in E|done].
Qed.

Lemma startswith_field tok f t :
  no_semicolon tok -> no_semicolon f ->
  startswith (tok ++ [";"%char]) (f ++ ";"%char :: t) = bool_decide (f = tok).
Proof.
  unfold no_semicolon. revert f. induction tok as [|a tok IH]; intros f Ht Hf.
  - destruct f as [|c f]; [by rewrite bool_decide_eq_true_2|].
    cbn [app startswith].
    apply not_elem_of_cons in Hf as [Hc _].
    destruct (ascii_eqb ";" c) eqn:E; [by apply ascii_eqb_true in E|].
    by rewrite bool_decide_eq_false_2.
  - apply not_elem_of_cons in Ht as [Ha Ht]. destruct f as [|c f]; cbn [app startswith].
    + destruct (ascii_eqb a ";") eqn:E; [apply ascii_eqb_true in E; congruence|].
      by rewrite bool_decide_eq_false_2.
    + apply not_elem_of_cons in Hf as [Hc Hf]. rewrite IH by done.
      destruct (ascii_eqb a c) eqn:E.
      * apply ascii_eqb_true in E as ->. cbn [andb].
        apply bool_decide_ext. split; congruence.
      * cbn [andb]. rewrite bool_decide_eq_false_2; [done|]. intros [= -> _].
        unfold ascii_eqb in E. by rewrite Ascii.eqb_refl in E.
Qed.

Lemma startswith_last_field tok f :
  no_semicolon f -> startswith (tok ++ [";"%char]) f = false.
Proof.
  unfold no_semicolon. intros Hf.
  destruct (startswith _ f) eqn:E; [|done].
  apply startswith_spec in E as [b ->]. destruct Hf.
  apply elem_of_app. left. apply elem_of_app. right. by left.
Qed.

Lemma replace_rest tok new rest :
  no_semicolon tok -> Forall no_semicolon rest ->
  replace (";"%char :: tok ++ [";"%char]) (";"%char :: new ++ [";"%char])
    (concat (map (cons ";"%char) rest))
  = concat (map (cons ";"%char) (convert_rest tok new rest)).
Proof.
  intros Htok.
  assert (H : forall n rest, (length rest < n)%nat -> Forall no_semicolon rest ->
    replace (";"%char :: tok ++ [";"%char]) (";"%char :: new ++ [";"%char])
      (concat (map (cons ";"%char) rest))
    = concat (map (cons ";"%char) (convert_rest tok new rest)));
    [|intros Hall; apply (H (S (length rest))); [lia|done]].
  clear rest. induction n as [|n IH]; intros rest Hlen Hall; [lia|].
  destruct rest as [|f [|g rest]]; [done|..].
  - inversion Hall as [|? ? Hf _]; subst. simpl. rewrite app_nil_r.
    rewrite replace_nomatch.
    + f_equal. rewrite <- (app_nil_r f) at 1.
      rewrite (replace_copy _ _ f []) by done. by rewrite app_nil_r.
    + simpl. by apply startswith_last_field.
  - inversion Hall as [|? ? Hf Hall']; subst.
    inversion Hall' as [|? ? Hg Hrest]; subst.
    cbn [convert_rest].
    change (concat (map (cons ";"%char) (f :: g :: rest)))
      with (";"%char :: f ++ ";"%char :: g ++ concat (map (cons ";"%char) rest)).
    destruct (bool_decide (f = tok)) eqn:E.
    + apply bool_decide_eq_true in E as ->.
      rewrite replace_match; [|done|].
      2:{ simpl. by rewrite startswith_field, bool_decide_eq_true_2. }
      replace (";"%char :: tok ++ ";"%char :: g ++ concat (map (cons ";"%char) rest))
        with ((";"%char :: tok ++ [";"%char])
              ++ g ++ concat (map (cons ";"%char) rest))
        by (by simpl; rewrite <- app_assoc).
      rewrite drop_app_length.
      rewrite (replace_copy _ _ g) by done.
      rewrite IH; [|simpl in Hlen; lia|done].
      simpl. rewrite <- !app_assoc. done.
    + rewrite replace_nomatch.
      2:{ simpl. by rewrite startswith_field, E. }
      rewrite (replace_copy _ _ f) by done.
      change (";"%char :: g ++ concat (map (cons ";"%char) rest))
        with (concat (map (cons ";"%char) (g :: rest))).
      rewrite (IH (g :: rest)); [|simpl in *; lia|done].
      by rewrite map_cons, concat_cons.
Qed.

Lemma replace_join tok new fields :
  no_semicolon tok -> Forall no_semicolon fields ->
  replace (";"%char :: tok ++ [";"%char]) (";"%char :: new ++ [";"%char])
    (join (lit ";") fields)
  = join (lit ";") (convert_fields tok new fields).
Proof.
  intros Htok Hall. destruct fields as [|f0 rest]; [done|].
  inversion Hall as [|? ? Hf Hrest]; subst.
  cbn [convert_fields]. rewrite !join_semicolon.
  rewrite (replace_copy _ _ f0) by done. by rewrite replace_rest.
Qed.

Lemma convert_rest_Forall2 tok new rest :
  Forall2 (fun f g => g = f \/ (f = tok /\ g = new)) rest (convert_rest tok new rest).
Proof.
  assert (H : forall n rest, (length rest < n)%nat ->
    Forall2 (fun f g => g = f \/ (f = tok /\ g = new)) rest (convert_rest tok new rest));
    [|apply (H (S (length rest))); lia].
  clear rest. induction n as [|n IH]; intros rest Hlen; [lia|].
  destruct rest as [|f [|g rest]].
  - constructor.
  - repeat constructor.
  - cbn [convert_rest]. simpl in Hlen. case_bool_decide.
    + constructor; [by right|]. constructor; [by left|]. apply IH. lia.
    + constructor; [by left|]. apply IH. simpl. lia.
Qed.

Lemma convert_fields_Forall2 tok new fields :
  Forall2 (fun f g => g = f \/ (f = tok /\ g = new)) fields
    (convert_fields tok new fields).
Proof.
  destruct fields as [|f0 rest]; [constructor|].
  constructor; [by left|apply convert_rest_Forall2].
Qed.

Lemma convert_fields_no_semicolon tok new fields :
  no_semicolon new -> Forall no_semicolon fields ->
  Forall no_semicolon (convert_fields tok new fields).
Proof.
  intros Hnew Hall. pose proof (convert_fields_Forall2 tok new fields) as H.
  induction H as [|f g fields out Hfg _ IH]; [done|].
  inversion Hall; subst. constructor; [|by apply IH].
  by destruct Hfg as [->|[_ ->]].
Qed.

Lemma tokens_no_semicolon :
  no_semicolon (lit "WAHR") /\ no_semicolon (lit "TRUE") /\
  no_semicolon (lit "FALSCH") /\ no_semicolon (lit "FALSE").
Proof.
  unfold no_semicolon. repeat split; rewrite list_elem_of_In; simpl;
    intuition discriminate.
Qed.

Lemma convert_booleans_join fields :
  Forall no_semicolon fields ->
  convert_booleans (join (lit ";") fields)
  = join (lit ";") (convert_boolean_fields fields).
Proof.
  intros Hall. destruct tokens_no_semicolon as (Hw & Ht & Hf & Hfe).
  unfold convert_booleans, convert_boolean_fields.
  change (lit ";WAHR;") with (";"%char :: lit "WAHR" ++ [";"%char]).
  change (lit ";TRUE;") with (";"%char :: lit "TRUE" ++ [";"%char]).
  change (lit ";FALSCH;") with (";"%char :: lit "FALSCH" ++ [";"%char]).
  change (lit ";FALSE;") with (";"%char :: lit "FALSE" ++ [";"%char]).
  rewrite replace_join by done.
  rewrite replace_join; [done..|]. by apply convert_fields_no_semicolon.
Qed.

Lemma convert_boolean_fields_Forall2 fields :
  Forall2 field_converted fields (convert_boolean_fields fields).
Proof.
  unfold convert_boolean_fields.
  pose proof (convert_fields_Forall2 (lit "WAHR") (lit "TRUE") fields) as H1.
  pose proof (convert_fields_Forall2 (lit "FALSCH") (lit "FALSE")
                (convert_fields (lit "WAHR") (lit "TRUE") fields)) as H2.
  revert H2. generalize (convert_fields (lit "FALSCH") (lit "FALSE")
                           (convert_fields (lit "WAHR") (lit "TRUE") fields)).
  induction H1 as [|f g fields mid Hfg _ IH]; intros out H2.
  - inversion H2. constructor.
  - inversion H2 as [|? h ? out' Hgh Hrest]; subst. constructor; [|by apply IH].
    unfold field_converted.
    destruct Hfg as [->|[-> ->]], Hgh as [->|[Hg ->]]; auto.
    discriminate Hg.
Qed.

Lemma convert_boolean_fields_head f0 rest :
  exists rest', convert_boolean_fields (f0 :: rest) = f0 :: rest'.
Proof. unfold convert_boolean_fields. cbn [convert_fields]. eauto. Qed.

(** X1. On a line whose fields hold no [;], the two replacements act field
    by field: the converted line is the fields of [convert_boolean_fields]
    joined again; there are as many fields as before, the first one is
    untouched, and a field is either unchanged, or read WAHR and reads
    TRUE, or read FALSCH and reads FALSE. *)
Theorem boolean_conversion_by_fields fields :
  Forall no_semicolon fields ->
  convert_booleans (join (lit ";") fields)
  = join (lit ";") (convert_boolean_fields fields)
  /\ length (convert_boolean_fields fields) = length fields
  /\ head (convert_boolean_fields fields) = head fields
  /\ Forall2 field_converted fields (convert_boolean_fields fields)
  /\ (fields <> [] ->
      split ";" (convert_booleans (join (lit ";") fields))
      = convert_boolean_fields fields).
Proof.
  intros Hall. pose proof (convert_boolean_fields_Forall2 fields) as H2.
  destruct tokens_no_semicolon as (Hw & Ht & Hf & Hfe).
  split; [by apply convert_booleans_join|].
  split; [symmetry; by eapply Forall2_length|].
  split.
  { destruct fields as [|f0 rest]; [done|].
    by destruct (convert_boolean_fields_head f0 rest) as [rest' ->]. }
  split; [done|]. intros Hne.
  rewrite convert_booleans_join by done. apply split_join.
  - intros Hnil. apply Forall2_length in H2. rewrite Hnil in H2.
    by destruct fields.
  - unfold convert_boolean_fields. by repeat apply convert_fields_no_semicolon.
Qed.

Lemma boolean_conversion_by_fields_witness :
  Forall no_semicolon boolean_fields /\
  convert_booleans (lit "1;WAHR;WAHR;FALSCH;WAHR")
  = join (lit ";") [lit "1"; lit "TRUE"; lit "WAHR"; lit "FALSE"; lit "WAHR"].
Proof.
  assert (H : Forall no_semicolon boolean_fields).
  { repeat constructor; unfold no_semicolon; rewrite list_elem_of_In; simpl;
      intuition discriminate. }
  split; [exact H|].
  exact (proj1 (boolean_conversion_by_fields boolean_fields H)).
Defined.

(** ** [str] and [int] *)

Lemma uint_chars d :
  Forall (fun c => is_Some (digit_val c))
    (list_ascii_of_string (NilEmpty.string_of_uint d)).
Proof.
  induction d; simpl; constructor; try done; by vm_compute; eexists.
Qed.

Lemma digit_not_int_space c : is_Some (digit_val c) -> is_int_space c = false.
Proof.
  destruct c as [[] [] [] [] [] [] [] []]; vm_compute; try done;
    by intros [? [=]].
Qed.

Lemma digit_not_sign c :
  is_Some (digit_val c) -> ascii_eqb c "-" = false /\ ascii_eqb c "+" = false.
Proof.
  destruct c as [[] [] [] [] [] [] [] []]; vm_compute; try done;
    by intros [? [=]].
Qed.

Lemma digit_is_digit c : is_Some (digit_val c) -> is_digit c = true.
Proof. unfold is_digit. by intros [d ->]. Qed.

Lemma lstrip_by_id sp s : Forall (fun c => sp c = false) s -> lstrip_by sp s = s.
Proof. destruct 1 as [|c s Hc _]; [done|]. simpl. by rewrite Hc. Qed.

Lemma strip_by_id sp s : Forall (fun c => sp c = false) s -> strip_by sp s = s.
Proof.
  intros H. unfold strip_by.
  rewrite (lstrip_by_id sp (reverse s)) by by apply Forall_reverse.
  rewrite reverse_involutive. by apply lstrip_by_id.
Qed.

Lemma int_digits_uint acc after_digit d :
  d <> Decimal.Nil \/ after_digit = true ->
  int_digits acc after_digit (list_ascii_of_string (NilEmpty.string_of_uint d))
  = Some (uint_value acc d).
Proof.
  revert acc after_digit.
  induction d as [|d IH|d IH|d IH|d IH|d IH|d IH|d IH|d IH|d IH|d IH];
    intros acc after_digit Hne.
  - destruct Hne as [?| ->]; done.
  - apply (IH (10 * acc + 0) true). by right.
  - apply (IH (10 * acc + 1) true). by right.
  - apply (IH (10 * acc + 2) true). by right.
  - apply (IH (10 * acc + 3) true). by right.
  - apply (IH (10 * acc + 4) true). by right.
  - apply (IH (10 * acc + 5) true). by right.
  - apply (IH (10 * acc + 6) true). by right.
  - apply (IH (10 * acc + 7) true). by right.
  - apply (IH (10 * acc + 8) true). by right.
  - apply (IH (10 * acc + 9) true). by right.
Qed.

Lemma uint_value_acc d acc :
  uint_value (Z.pos acc) d = Z.pos (Pos.of_uint_acc d acc).
Proof.
  revert acc. induction d; intros acc; simpl; [done|..];
    rewrite <- IHd; f_equal; lia.
Qed.

Lemma uint_value_of_uint d : uint_value 0 d = Z.of_N (Pos.of_uint d).
Proof.
  induction d; simpl; [done|done|..]; by rewrite <- uint_value_acc.
Qed.

Lemma str_of_int_pos p :
  str_of_int (Z.pos p)
  = list_ascii_of_string (NilEmpty.string_of_uint (Pos.to_uint p)) /\
  str_of_int (Z.neg p)
  = "-"%char :: list_ascii_of_string (NilEmpty.string_of_uint (Pos.to_uint p)).
Proof.
  unfold str_of_int. cbn [Z.to_int NilZero.string_of_int].
  pose proof (Unsigned.to_uint_nonnil p) as Hne.
  unfold NilZero.string_of_uint. by destruct (Pos.to_uint p).
Qed.

Lemma str_of_int_chars n : Forall is_decimal_char (str_of_int n).
Proof.
  destruct n as [|p|p].
  - change (str_of_int 0) with ["0"%char]. constructor; [|constructor].
    left. by vm_compute; eexists.
  - rewrite (proj1 (str_of_int_pos p)).
    eapply Forall_impl; [apply uint_chars|]. by left.
  - rewrite (proj2 (str_of_int_pos p)). constructor; [by right|].
    eapply Forall_impl; [apply uint_chars|]. by left.
Qed.

(** *** The number of digits of a numeral *)

Lemma uint_string_length d :
  length (list_ascii_of_string (NilEmpty.string_of_uint d)) = Decimal.nb_digits d.
Proof. induction d; simpl; congruence. Qed.

Lemma count_digits_all s :
  Forall (fun c => is_Some (digit_val c)) s -> count_digits s = length s.
Proof.
  unfold count_digits. induction 1 as [|c s Hc _ IH]; [done|].
  simpl. rewrite (digit_is_digit c Hc). simpl. by rewrite IH.
Qed.

Lemma nb_digits_double d :
  (Decimal.nb_digits (Decimal.Little.double d) <= S (Decimal.nb_digits d))%nat /\
  (Decimal.nb_digits (Decimal.Little.succ_double d) <= S (Decimal.nb_digits d))%nat.
Proof. induction d as [|d [IH1 IH2]| | | | | | | | |]; simpl; intuition lia. Qed.

Lemma nb_digits_to_little_uint p :
  (Decimal.nb_digits (Pos.to_little_uint p) <= Pos.size_nat p)%nat.
Proof.
  induction p as [p IH|p IH|]; simpl; [| |lia].
  - pose proof (proj2 (nb_digits_double (Pos.to_little_uint p))). lia.
  - pose proof (proj1 (nb_digits_double (Pos.to_little_uint p))). lia.
Qed.

Lemma count_digits_pos p :
  (count_digits (list_ascii_of_string (NilEmpty.string_of_uint (Pos.to_uint p)))
   <= Pos.size_nat p)%nat.
Proof.
  rewrite count_digits_all by apply uint_chars.
  rewrite uint_string_length. unfold Pos.to_uint.
  rewrite DecimalFacts.nb_digits_rev. apply nb_digits_to_little_uint.
Qed.

Lemma size_nat_small p : Z.pos p < 2 ^ 64 -> (Pos.size_nat p <= 65)%nat.
Proof.
  intros Hp. change 65%nat with (Pos.size_nat (2 ^ 64)).
  apply Pos.size_nat_monotone. lia.
Qed.

(** [int(str(n))] is [n] for an integer of 64 bits. *)
Lemma py_int_str_of_int n : Z.abs n < 2 ^ 64 -> py_int (str_of_int n) = Ok n.
Proof.
  destruct n as [|p|p]; [done|..]; intros Hn.
  - assert (Hsize : (Pos.size_nat p <= 65)%nat) by (apply size_nat_small; lia).
    pose proof (count_digits_pos p) as Hcount.
    rewrite (proj1 (str_of_int_pos p)). unfold py_int.
    replace (int_max_str_digits <? count_digits _)%nat with false
      by (symmetry; apply Nat.ltb_ge; unfold int_max_str_digits; lia).
    pose proof (uint_chars (Pos.to_uint p)) as Hd.
    rewrite strip_by_id
      by (eapply Forall_impl; [exact Hd|apply digit_not_int_space]).
    pose proof (int_digits_uint 0 false (Pos.to_uint p)
                  (or_introl (Unsigned.to_uint_nonnil p))) as Hv.
    destruct (list_ascii_of_string _) as [|c r]; [done|].
    inversion Hd as [|? ? Hc _]; subst.
    destruct (digit_not_sign c Hc) as [-> ->].
    rewrite Hv, uint_value_of_uint, DecimalPos.Unsigned.of_to. done.
  - assert (Hsize : (Pos.size_nat p <= 65)%nat) by (apply size_nat_small; lia).
    pose proof (count_digits_pos p) as Hcount.
    rewrite (proj2 (str_of_int_pos p)). unfold py_int.
    replace (int_max_str_digits <? count_digits _)%nat with false.
    2:{ symmetry. apply Nat.ltb_ge. unfold count_digits in *.
        cbn [List.filter]. change (is_digit "-") with false.
        unfold int_max_str_digits. lia. }
    pose proof (uint_chars (Pos.to_uint p)) as Hd.
    rewrite strip_by_id.
    2:{ constructor; [done|].
        eapply Forall_impl; [exact Hd|apply digit_not_int_space]. }
    change (ascii_eqb "-" "-") with true. cbn iota.
    rewrite (int_digits_uint 0 false (Pos.to_uint p)
               (or_introl (Unsigned.to_uint_nonnil p))).
    rewrite uint_value_of_uint, DecimalPos.Unsigned.of_to. done.
Qed.

Lemma py_int_new_id n : 1 <= n <= max_val -> py_int (str_of_int n) = Ok n.
Proof.
  intros Hn. apply py_int_str_of_int.
  assert (max_val < 2 ^ 64) by reflexivity. lia.
Qed.

(** ** The rows in the output text *)

Lemma decimal_char_no_semicolon s : Forall is_decimal_char s -> no_semicolon s.
Proof.
  unfold no_semicolon. intros H Hin. rewrite Forall_forall in H.
  destruct (H _ Hin) as [[? Hd]|Hs]; [|discriminate Hs].
  by vm_compute in Hd.
Qed.

Lemma str_of_int_not_token n :
  str_of_int n <> lit "WAHR" /\ str_of_int n <> lit "FALSCH".
Proof.
  pose proof (str_of_int_chars n) as H.
  split; intros Heq; rewrite Heq in H; inversion H as [|? ? Hc _]; subst;
    destruct Hc as [[? Hd]|Hs]; by vm_compute in Hd || discriminate Hs.
Qed.

Lemma data_row_no_semicolon lines row :
  row ∈ snd (parse_csv_file lines) -> Forall no_semicolon row.
Proof.
  rewrite parse_csv_file_spec. cbn [snd].
  intros [Hin _]%elem_of_filter_In.
  apply list_elem_of_In, in_map_iff in Hin as (line & <- & _).
  apply split_no_semicolon.
Qed.

Lemma transformed_from_no_semicolon ids row new_row :
  transformed_from ids row new_row -> Forall no_semicolon row ->
  Forall no_semicolon new_row.
Proof.
  intros [f0 f1 f2 f3 f4 f5 f6 f7 rest o v no nv _ _ _ _] Hall.
  do 8 (apply Forall_cons in Hall as [? Hall]).
  repeat (constructor; [first [done|apply decimal_char_no_semicolon, str_of_int_chars
                               |apply not_elem_of_nil]|]).
  constructor.
Qed.

Lemma transformed_rows_no_semicolon lines tape t tape' new_row :
  transform_species_csv lines tape = Some (Ok t, tape') ->
  new_row ∈ transformed_rows t ->
  Forall no_semicolon new_row /\
  exists a1 a2 a3 a4 a6 new_o new_v,
    new_row = [str_of_int new_o; a1; a2; a3; a4; str_of_int new_v; a6; []; []].
Proof.
  intros Hrun Hin.
  destruct (transformed_rows_from _ _ _ _ _ Hrun Hin) as (row & Hrow & Hfrom).
  split.
  - eapply transformed_from_no_semicolon; [done|]. by eapply data_row_no_semicolon.
  - destruct Hfrom. by eexists _, _, _, _, _, _, _.
Qed.

Lemma mapping_in_range lines tape t tape' k v :
  transform_species_csv lines tape = Some (Ok t, tape') ->
  id_mapping t !! k = Some v -> 1 <= v <= max_val.
Proof.
  intros (st & out & Hfirst & _ & [= ->])%transform_species_csv_Some Hk.
  apply first_pass_covers in Hfirst as (? & [= <-] & Hok & _).
  by apply (ids_range _ Hok k).
Qed.

Lemma transformed_rows_ids lines tape t tape' new_row :
  transform_species_csv lines tape = Some (Ok t, tape') ->
  new_row ∈ transformed_rows t ->
  Forall no_semicolon new_row /\
  exists a1 a2 a3 a4 a6 o v new_o new_v,
    new_row = [str_of_int new_o; a1; a2; a3; a4; str_of_int new_v; a6; []; []]
    /\ id_mapping t !! o = Some new_o /\ id_mapping t !! v = Some new_v
    /\ 1 <= new_o <= max_val /\ 1 <= new_v <= max_val.
Proof.
  intros Hrun Hin.
  destruct (transformed_rows_from _ _ _ _ _ Hrun Hin) as (row & Hrow & Hfrom).
  split.
  - eapply transformed_from_no_semicolon; [done|]. by eapply data_row_no_semicolon.
  - destruct Hfrom as [f0 f1 f2 f3 f4 f5 f6 f7 rest o v no nv _ _ Ho Hv].
    exists f1, f2, f3, f5, f7, o, v, no, nv.
    split; [done|]. split; [done|]. split; [done|].
    split; eapply mapping_in_range; done.
Qed.

(** X2. The identifiers that the program writes can be read again: in
    the line written for a data row, split at [;], the first field reads
    with [int] as the new identifier that the mapping holds for an old
    identifier, the sixth field as the new identifier that the mapping
    holds for an old valid identifier, and both lie between 1 and
    [max_val]. *)
Theorem written_identifiers_read_back lines tape t tape' new_row :
  transform_species_csv lines tape = Some (Ok t, tape') ->
  new_row ∈ transformed_rows t ->
  exists own valid new_own new_valid,
    id_mapping t !! own = Some new_own
    /\ id_mapping t !! valid = Some new_valid
    /\ rbind (getitem (split ";" (convert_booleans (join (lit ";") new_row))) 0)
         py_int = Ok new_own
    /\ rbind (getitem (split ";" (convert_booleans (join (lit ";") new_row))) 5)
         py_int = Ok new_valid
    /\ 1 <= new_own <= max_val /\ 1 <= new_valid <= max_val.
Proof.
  intros Hrun Hin.
  destruct (transformed_rows_ids _ _ _ _ _ Hrun Hin)
    as (Hall & a1 & a2 & a3 & a4 & a6 & o & v & no & nv & -> & Ho & Hv & Hno & Hnv).
  exists o, v, no, nv. split; [done|]. split; [done|].
  cut (rbind (getitem (split ";" (convert_booleans
                 (join (lit ";") [str_of_int no; a1; a2; a3; a4; str_of_int nv; a6; []; []]))) 0)
         py_int = Ok no /\
       rbind (getitem (split ";" (convert_booleans
                 (join (lit ";") [str_of_int no; a1; a2; a3; a4; str_of_int nv; a6; []; []]))) 5)
         py_int = Ok nv); [by intros [? ?]|].
  destruct (boolean_conversion_by_fields _ Hall) as (_ & _ & _ & H2 & Hsplit).
  rewrite Hsplit by done.
  destruct (Forall2_lookup_l _ _ _ 0%nat _ H2 eq_refl) as (g0 & Hg0 & Hc0).
  destruct (Forall2_lookup_l _ _ _ 5%nat _ H2 eq_refl) as (g5 & Hg5 & Hc5).
  destruct (str_of_int_not_token no) as [Hw0 Hf0].
  destruct (str_of_int_not_token nv) as [Hw5 Hf5].
  assert (g0 = str_of_int no) as -> by (by destruct Hc0 as [->|[[? _]|[? _]]]).
  assert (g5 = str_of_int nv) as -> by (by destruct Hc5 as [->|[[? _]|[? _]]]).
  unfold getitem. rewrite Hg0, Hg5. cbn [rbind].
  by rewrite !py_int_new_id.
Qed.

Lemma written_identifiers_read_back_witness :
  exists t new_row,
    transform_species_csv ex_lines ex_tape = Some (Ok t, []) /\
    new_row ∈ transformed_rows t /\
    rbind (getitem (split ";" (convert_booleans (join (lit ";") new_row))) 0)
      py_int = Ok 7.
Proof.
  eexists _, _. split; [vm_compute; reflexivity|].
  split; [apply list_elem_of_here|].
  destruct (written_identifiers_read_back ex_lines ex_tape _ [] _ eq_refl
              (list_elem_of_here _ _))
    as (own & valid & new_own & new_valid & _ & _ & Hids & _).
  etrans; [exact Hids|]. rewrite <- Hids. vm_compute. reflexivity.
Defined.

(** X3. In the text of the output every data row is written as one line
    of exactly 9 fields; the first and the sixth field are the new own
    identifier and the new valid identifier of the transformed row, which
    the conversion of the boolean tokens never touches, and every other
    field is the field of the transformed row or its converted token. *)
Theorem output_rows_keep_identifiers lines tape t tape' :
  transform_species_csv lines tape = Some (Ok t, tape') ->
  output_text t =
    write_lines (map (fun line => convert_booleans (update_metadata_line line))
                   (fst (parse_csv_file lines)))
    ++ (new_header ++ newline)
    ++ write_lines (map (fun row => join (lit ";") (convert_boolean_fields row))
                      (transformed_rows t))
  /\ (forall new_row, new_row ∈ transformed_rows t ->
        split ";" (join (lit ";") (convert_boolean_fields new_row))
        = convert_boolean_fields new_row
        /\ length (convert_boolean_fields new_row) = 9%nat
        /\ convert_boolean_fields new_row !! 0%nat = new_row !! 0%nat
        /\ convert_boolean_fields new_row !! 5%nat = new_row !! 5%nat
        /\ Forall2 field_converted new_row (convert_boolean_fields new_row)).
Proof.
  intros Hrun. split.
  - rewrite (output_text_lines _ _ _ _ Hrun). do 3 f_equal.
    apply map_ext_in. intros row Hin%list_elem_of_In.
    apply convert_booleans_join.
    by destruct (transformed_rows_no_semicolon _ _ _ _ _ Hrun Hin).
  - intros new_row Hin.
    destruct (transformed_rows_no_semicolon _ _ _ _ _ Hrun Hin)
      as (Hall & a1 & a2 & a3 & a4 & a6 & no & nv & ->).
    destruct (boolean_conversion_by_fields _ Hall) as (Hj & Hlen & Hhead & H2 & Hsplit).
    split; [rewrite <- Hj; by apply Hsplit|]. split; [by rewrite Hlen|].
    split; [by rewrite <- !head_lookup, Hhead|]. split; [|done].
    destruct (Forall2_lookup_l _ _ _ 5%nat _ H2 eq_refl) as (g & -> & Hg).
    destruct (str_of_int_not_token nv) as [Hw Hf].
    by destruct Hg as [->|[[? _]|[? _]]].
Qed.

Lemma output_rows_keep_identifiers_witness :
  exists t new_row,
    transform_species_csv overlap_lines [5] = Some (Ok t, []) /\
    new_row ∈ transformed_rows t /\
    split ";" (join (lit ";") (convert_boolean_fields new_row))
    = convert_boolean_fields new_row
    /\ length (convert_boolean_fields new_row) = 9%nat
    /\ convert_boolean_fields new_row !! 0%nat = new_row !! 0%nat
    /\ convert_boolean_fields new_row !! 5%nat = new_row !! 5%nat
    /\ Forall2 field_converted new_row (convert_boolean_fields new_row).
Proof.
  eexists _, _. split; [vm_compute; reflexivity|].
  split; [apply list_elem_of_here|].
  apply (proj2 (output_rows_keep_identifiers overlap_lines [5] _ [] eq_refl)).
  apply list_elem_of_here.
Defined.




(** ** The keys and the values of the mapping *)

Lemma ids_exact_init : ids_exact id_init.
Proof.
  split; [|done]. intros v. cbn. split.
  - by intros ?%not_elem_of_empty.
  - intros [k Hk]. by rewrite lookup_empty in Hk.
Qed.

Lemma pass_effect_refl st : pass_effect st st (fun _ => False) [].
Proof.
  split; [|split].
  - intros k. split; [by left|by intros [?|[]]].
  - intros k v. by left.
  - simpl. lia.
Qed.

Lemma pass_effect_trans st1 st2 st3 a1 a2 c1 c2 :
  pass_effect st1 st2 a1 c1 -> pass_effect st2 st3 a2 c2 ->
  pass_effect st1 st3 (fun k => a1 k \/ a2 k) (c1 ++ c2).
Proof.
  intros (Hk1 & Hv1 & Hs1) (Hk2 & Hv2 & Hs2). split; [|split].
  - intros k. rewrite Hk2, Hk1. tauto.
  - intros k v [Hv|Hv]%Hv2.
    + destruct (Hv1 _ _ Hv) as [?|?]; [by left|right]. apply elem_of_app. by left.
    + right. apply elem_of_app. by right.
  - rewrite length_app. lia.
Qed.

Lemma redraw_while_used_consumed fuel used x tape w tape' :
  redraw_while_used fuel used x tape = Some (Ok w, tape') ->
  exists c, tape = c ++ tape' /\ (w = x \/ w ∈ c).
Proof.
  revert x tape. induction fuel as [|fuel IH]; intros x tape; simpl.
  - case_decide; [discriminate|]. intros [= <- <-]. exists []. split; [done|by left].
  - case_decide.
    + intros H0. apply bind_Some in H0 as [(e & _ & [=])|(y & tape1 & H0 & H1)].
      apply generate_64bit_id_Some in H0 as (v & [= ->] & -> & _).
      apply IH in H1 as (c & -> & Hw). exists (v :: c). split; [done|].
      right. destruct Hw as [->|?]; [by left|by right].
    + intros [= <- <-]. exists []. split; [done|by left].
Qed.

Lemma assign_new_id_exact old st tape st' tape' :
  ids_ok st -> ids_exact st ->
  assign_new_id old st tape = Some (Ok st', tape') ->
  ids_ok st' /\ ids_exact st' /\
  exists consumed, tape = consumed ++ tape' /\
    pass_effect st st' (fun k => k = old) consumed.
Proof.
  intros Hok [Himg Hsize] Hrun.
  pose proof Hrun as (? & [= <-] & Hok' & _)%assign_new_id_Some; [|done].
  split; [done|]. revert Hrun. unfold assign_new_id.
  destruct (old_to_new_id st !! old) as [v0|] eqn:Hold.
  - intros [= <- <-]. split; [done|]. exists []. split; [done|].
    split; [|split].
    + intros k. split; [by left|]. intros [?| ->]; [done|]. by rewrite Hold.
    + intros k v. by left.
    + simpl. lia.
  - intros H0. apply bind_Some in H0 as [(e & _ & [=])|(x & tape1 & H0 & H1)].
    apply generate_64bit_id_Some in H0 as (v & [= ->] & -> & Hv).
    apply bind_Some in H1 as [(e & _ & [=])|(w & tape2 & H1 & H2)].
    pose proof H1 as (? & [= <-] & Hfresh & _)%redraw_while_used_Some; [|done].
    apply redraw_while_used_consumed in H1 as (c & -> & Hw).
    injection H2 as <- <-. split; [split|].
    + intros u. cbn [used_ids old_to_new_id].
      rewrite elem_of_union, elem_of_singleton, Himg. split.
      * intros [->|[k Hk]]; [exists old; by rewrite lookup_insert_eq|].
        exists k. rewrite lookup_insert_ne; [done|]. congruence.
      * intros [k Hk]. rewrite lookup_insert in Hk. case_decide.
        -- left. congruence.
        -- right. eauto.
    + cbn [used_ids old_to_new_id].
      rewrite map_size_insert_None by done.
      rewrite size_union by (by apply disjoint_singleton_l).
      rewrite size_singleton. lia.
    + exists (v :: c). split; [done|]. split; [|split]; cbn [old_to_new_id].
      * intros k. rewrite lookup_insert. case_decide.
        -- subst. split; [by right|eauto].
        -- split; [by left|]. intros [?|?]; congruence.
      * intros k u. rewrite lookup_insert. case_decide; [|by left].
        intros [= <-]. right. destruct Hw as [->|?]; [by left|by right].
      * rewrite map_size_insert_None by done. simpl. lia.
Qed.

Lemma pass_effect_added st st' a a' c :
  (forall k, a k <-> a' k) -> pass_effect st st' a c -> pass_effect st st' a' c.
Proof.
  intros Ha (Hk & Hv & Hs). split; [|done]. intros k. rewrite Hk, Ha. done.
Qed.

Lemma first_pass_row_exact st row tape st' tape' :
  ids_ok st -> ids_exact st ->
  first_pass_row st row tape = Some (Ok st', tape') ->
  ids_ok st' /\ ids_exact st' /\
  exists consumed, tape = consumed ++ tape' /\
    pass_effect st st' (mentioned [row]) consumed.
Proof.
  intros Hok Hex. unfold first_pass_row.
  destruct (7 <=? length row)%nat eqn:Hlen.
  - apply Nat.leb_le in Hlen.
    destruct (first_pass_ids row) as [[o v]|e] eqn:Hids.
    + intros H0. apply bind_Some in H0 as [(e & _ & [=])|(st1 & tape1 & H0 & H1)].
      apply assign_new_id_exact in H0 as (Hok1 & Hex1 & c1 & -> & He1); [|done..].
      apply assign_new_id_exact in H1 as (Hok2 & Hex2 & c2 & -> & He2); [|done..].
      split; [done|]. split; [done|]. exists (c1 ++ c2).
      split; [by rewrite app_assoc|].
      eapply pass_effect_added; [|by eapply pass_effect_trans].
      intros k. split.
      * intros Hk. exists row, o, v. split; [by left|]. by repeat split.
      * intros (r & o' & v' & ->%list_elem_of_singleton & _ & Hids' & Hk).
        congruence.
    + rewrite (first_pass_ids_caught _ _ Hids). intros [= <- <-].
      split; [done|]. split; [done|]. exists []. split; [done|].
      eapply pass_effect_added; [|apply pass_effect_refl].
      intros k. split; [done|].
      intros (r & o' & v' & ->%list_elem_of_singleton & _ & Hids' & _).
      congruence.
  - apply Nat.leb_nle in Hlen. intros [= <- <-].
    split; [done|]. split; [done|]. exists []. split; [done|].
    eapply pass_effect_added; [|apply pass_effect_refl].
    intros k. split; [done|].
    intros (r & o' & v' & ->%list_elem_of_singleton & ? & _). lia.
Qed.

Lemma mentioned_cons row rows k :
  mentioned (row :: rows) k <-> mentioned [row] k \/ mentioned rows k.
Proof.
  split.
  - intros (r & o & v & [->|Hin]%elem_of_cons & H).
    + left. exists row, o, v. split; [by left|done].
    + right. by exists r, o, v.
  - intros [(r & o & v & ->%list_elem_of_singleton & H)|(r & o & v & Hin & H)].
    + exists row, o, v. split; [by left|done].
    + exists r, o, v. split; [by right|done].
Qed.

Lemma first_pass_exact st rows tape st' tape' :
  ids_ok st -> ids_exact st ->
  first_pass st rows tape = Some (Ok st', tape') ->
  ids_exact st' /\
  exists consumed, tape = consumed ++ tape' /\
    pass_effect st st' (mentioned rows) consumed.
Proof.
  revert st tape. induction rows as [|row rows IH]; intros st tape Hok Hex; simpl.
  - intros [= <- <-]. split; [done|]. exists []. split; [done|].
    eapply pass_effect_added; [|apply pass_effect_refl].
    intros k. split; [done|]. by intros (r & o & v & ?%elem_of_nil & _).
  - intros H0. apply bind_Some in H0 as [(e & H0 & _)|(st1 & tape1 & H0 & H1)].
    { by apply first_pass_row_Some in H0 as (? & ? & _). }
    apply first_pass_row_exact in H0 as (Hok1 & Hex1 & c1 & -> & He1); [|done..].
    apply IH in H1 as (Hex2 & c2 & -> & He2); [|done..].
    split; [done|]. exists (c1 ++ c2). split; [by rewrite app_assoc|].
    eapply pass_effect_added; [|by eapply pass_effect_trans].
    intros k. by rewrite mentioned_cons.
Qed.

(** X5. After the first pass the keys of the mapping are exactly the
    identifiers that the pass parsed from the rows with 7 fields or more
    (own and valid identifiers of the rows whose two fields parse), the set
    of used identifiers is exactly the set of the values of the mapping,
    and both have the same number of elements. *)
Theorem mapping_keys_and_values rows tape st tape' :
  first_pass id_init rows tape = Some (Ok st, tape') ->
  (forall k, is_Some (old_to_new_id st !! k) <-> mentioned rows k)
  /\ (forall v, v ∈ used_ids st <-> exists k, old_to_new_id st !! k = Some v)
  /\ size (old_to_new_id st) = size (used_ids st).
Proof.
  intros (Hex & c & _ & Hk & _)%first_pass_exact;
    [|apply ids_ok_init|apply ids_exact_init].
  split; [|exact Hex]. intros k. rewrite Hk. cbn. rewrite lookup_empty.
  split; [intros [[? [=]]|?]; done|by right].
Qed.

Lemma mapping_keys_and_values_witness :
  exists st tape',
    first_pass id_init ex_rows ex_tape = Some (Ok st, tape') /\
    (forall k, is_Some (old_to_new_id st !! k) <-> mentioned ex_rows k)
    /\ (forall v, v ∈ used_ids st <-> exists k, old_to_new_id st !! k = Some v)
    /\ size (old_to_new_id st) = size (used_ids st).
Proof.
  eexists _, _. split; [vm_compute; reflexivity|].
  apply (mapping_keys_and_values ex_rows ex_tape _ []). vm_compute. reflexivity.
Defined.

(** X6. The first pass reads the draws from the front of the tape and
    leaves the rest; every new identifier of the mapping is one of the
    draws it read, and it reads at least one draw for each key. *)
Theorem new_ids_are_draws rows tape st tape' :
  first_pass id_init rows tape = Some (Ok st, tape') ->
  exists consumed,
    tape = consumed ++ tape' /\
    (forall k v, old_to_new_id st !! k = Some v -> v ∈ consumed) /\
    (size (old_to_new_id st) <= length consumed)%nat.
Proof.
  intros (_ & c & -> & _ & Hv & Hs)%first_pass_exact;
    [|apply ids_ok_init|apply ids_exact_init].
  exists c. split; [done|]. split.
  - intros k v [Hk|?]%Hv; [|done]. cbn in Hk. by rewrite lookup_empty in Hk.
  - cbn in Hs. by rewrite map_size_empty in Hs.
Qed.

Lemma new_ids_are_draws_witness :
  exists st tape',
    first_pass id_init ex_rows (ex_tape ++ [11]) = Some (Ok st, tape') /\
    exists consumed,
      ex_tape ++ [11] = consumed ++ tape' /\
      (forall k v, old_to_new_id st !! k = Some v -> v ∈ consumed) /\
      (size (old_to_new_id st) <= length consumed)%nat.
Proof.
  eexists _, _. split; [vm_compute; reflexivity|].
  apply (new_ids_are_draws ex_rows (ex_tape ++ [11]) _ [11]).
  vm_compute. reflexivity.
Defined.

(** ** Names of archives and of their members *)

Lemma endswith_spec suffix s :
  endswith suffix s = true <-> exists a, s = a ++ suffix.
Proof.
  unfold endswith. rewrite startswith_spec. split.
  - intros [b Hb]. exists (reverse b).
    apply (inj reverse). by rewrite reverse_app, reverse_involutive.
  - intros [a ->]. exists (reverse a). by rewrite reverse_app.
Qed.

Lemma lower_char_dot c : lower_char c = "."%char <-> c = "."%char.
Proof. destruct c as [[] [] [] [] [] [] [] []]; vm_compute; intuition congruence. Qed.

Lemma lower_char_z c : lower_char c = "z"%char <-> c = "z"%char \/ c = "Z"%char.
Proof. destruct c as [[] [] [] [] [] [] [] []]; vm_compute; intuition congruence. Qed.

Lemma lower_char_i c : lower_char c = "i"%char <-> c = "i"%char \/ c = "I"%char.
Proof. destruct c as [[] [] [] [] [] [] [] []]; vm_compute; intuition congruence. Qed.

Lemma lower_char_p c : lower_char c = "p"%char <-> c = "p"%char \/ c = "P"%char.
Proof. destruct c as [[] [] [] [] [] [] [] []]; vm_compute; intuition congruence. Qed.

Lemma lower_app s t : lower (s ++ t) = lower s ++ lower t.
Proof. apply map_app. Qed.

Lemma lower_eq_app s a b :
  lower s = a ++ b -> exists s1 s2, s = s1 ++ s2 /\ lower s1 = a /\ lower s2 = b.
Proof. apply map_eq_app. Qed.

(** X7. A path counts as a ZIP archive exactly when it ends with a dot
    and the letters z, i, p, each in either case. *)
Theorem is_zip_file_iff file_path :
  is_zip_file file_path = true <->
  exists stem a b c,
    file_path = stem ++ ["."%char; a; b; c] /\
    (a = "z"%char \/ a = "Z"%char) /\ (b = "i"%char \/ b = "I"%char) /\
    (c = "p"%char \/ c = "P"%char).
Proof.
  unfold is_zip_file. rewrite endswith_spec. split.
  - intros [x Hx]. apply lower_eq_app in Hx as (stem & ext & -> & _ & Hext).
    destruct ext as [|d [|a [|b [|c [|? ?]]]]]; try discriminate Hext.
    injection Hext as Hd Ha Hb Hc.
    apply (proj1 (lower_char_dot d)) in Hd as ->.
    apply (proj1 (lower_char_z a)) in Ha. apply (proj1 (lower_char_i b)) in Hb.
    apply (proj1 (lower_char_p c)) in Hc. by exists stem, a, b, c.
  - intros (stem & a & b & c & -> & Ha & Hb & Hc).
    apply (proj2 (lower_char_z a)) in Ha. apply (proj2 (lower_char_i b)) in Hb.
    apply (proj2 (lower_char_p c)) in Hc.
    exists (lower stem). rewrite lower_app. f_equal.
    unfold lower. cbn [map]. by rewrite Ha, Hb, Hc.
Qed.

Lemma data_files_first namelist f rest :
  data_files namelist = f :: rest ->
  exists before after,
    namelist = before ++ f :: after /\ is_data_file f = true /\
    Forall (fun g => is_data_file g = false) before.
Proof.
  unfold data_files. induction namelist as [|g namelist IH]; [done|]. simpl.
  destruct (is_data_file g) eqn:Hg.
  - intros [= -> _]. by exists [], namelist.
  - intros (before & after & -> & Hf & Hb)%IH.
    exists (g :: before), after. split; [done|]. split; [done|]. by constructor.
Qed.

Lemma data_files_nil namelist :
  data_files namelist = [] <-> Forall (fun g => is_data_file g = false) namelist.
Proof.
  unfold data_files. induction namelist as [|g namelist IH]; [done|]. simpl.
  destruct (is_data_file g) eqn:Hg.
  - split; [done|]. intros H. inversion H; congruence.
  - rewrite IH. split; [by constructor|]. by inversion 1.
Qed.

(** X8. The member taken from an archive is the first one, in the order
    of the archive, whose name ends with .csv or .txt in either case;
    [ValueError] is raised exactly when the archive has no such member; and
    the name that [process_zip_file] gives the member of the new archive
    is the name of the member that was extracted. *)
Theorem data_filename_is_first namelist :
  (forall f, data_filename namelist = Ok f <->
     exists before after,
       namelist = before ++ f :: after /\ is_data_file f = true /\
       Forall (fun g => is_data_file g = false) before)
  /\ (forall e, data_filename namelist = Raise e <->
        e = ValueError /\ Forall (fun g => is_data_file g = false) namelist)
  /\ (forall f, data_filename namelist = Ok f ->
        original_data_name namelist = Ok f)
  /\ (forall f, is_data_file f = true <->
        exists stem ext, f = stem ++ ext /\
          (lower ext = lit ".csv" \/ lower ext = lit ".txt")).
Proof.
  unfold data_filename, original_data_name. split; [|split; [|split]].
  - intros f. destruct (data_files namelist) as [|g rest] eqn:Hd.
    + split; [done|]. intros (before & after & -> & Hf & _).
      apply data_files_nil, Forall_app in Hd as [_ Hd].
      inversion Hd; congruence.
    + split.
      * intros [= ->]. by eapply data_files_first.
      * intros (before & after & -> & Hf & Hb). f_equal.
        unfold data_files in Hd. rewrite List.filter_app in Hd.
        apply data_files_nil in Hb. unfold data_files in Hb.
        rewrite Hb in Hd. simpl in Hd. rewrite Hf in Hd. congruence.
  - intros e. destruct (data_files namelist) as [|g rest] eqn:Hd.
    + rewrite <- data_files_nil, Hd. split; [by intros [= <-]|by intros [-> _]].
    + split; [done|]. intros [_ Hn%data_files_nil]. congruence.
  - intros f. by destruct (data_files namelist) as [|g rest]; [|intros [= ->]].
  - intros f. unfold is_data_file. rewrite orb_true_iff, !endswith_spec. split.
    + intros [[x Hx]|[x Hx]]; apply lower_eq_app in Hx as (stem & ext & -> & _ & Hext);
        exists stem, ext; auto.
    + intros (stem & ext & -> & [Hext|Hext]); [left|right];
        exists (lower stem); by rewrite lower_app, Hext.
Qed.

Lemma rfind_from_absent c t i found : c ∉ t -> rfind_from c t i found = found.
Proof.
  revert i. induction t as [|x t IH]; intros i; [done|].
  intros [Hx Ht]%not_elem_of_cons. cbn [rfind_from].
  destruct (ascii_eqb x c) eqn:E; [apply ascii_eqb_true in E; congruence|].
  by apply IH.
Qed.

Lemma rfind_from_last c s t i found :
  c ∉ t -> rfind_from c (s ++ c :: t) i found = i + Z.of_nat (length s).
Proof.
  intros Ht. revert i found. induction s as [|x s IH]; intros i found.
  - cbn [app rfind_from length]. unfold ascii_eqb. rewrite Ascii.eqb_refl.
    rewrite rfind_from_absent by done. lia.
  - cbn [app rfind_from length]. rewrite IH. lia.
Qed.

Lemma rfind_last c s t : c ∉ t -> rfind c (s ++ c :: t) = Z.of_nat (length s).
Proof. intros Ht. unfold rfind. by rewrite rfind_from_last. Qed.

(** X9. For an archive whose name is more than the four characters of
    its extension, the default name of the new archive is the name with
    [_transformed] put in before the extension as it was typed; it counts
    as a ZIP archive again and differs from the name of the input. A name
    that is nothing but the extension gets [_transformed] appended and no
    longer counts as a ZIP archive. *)
Theorem transformed_zip_name_keeps_extension name :
  is_zip_file name = true ->
  ((4 < length name)%nat ->
     transformed_zip_name name
     = take (length name - 4) name ++ lit "_transformed"
       ++ drop (length name - 4) name
     /\ is_zip_file (transformed_zip_name name) = true
     /\ transformed_zip_name name <> name)
  /\ (length name = 4%nat ->
        transformed_zip_name name = name ++ lit "_transformed"
        /\ is_zip_file (transformed_zip_name name) = false).
Proof.
  intros Hzip. pose proof Hzip as (stem & a & b & c & -> & Ha & Hb & Hc)%is_zip_file_iff.
  assert (Hdot : "."%char ∉ [a; b; c]).
  { rewrite list_elem_of_In. simpl. intuition congruence. }
  assert (Hr : rfind "." (stem ++ ["."%char; a; b; c]) = Z.of_nat (length stem))
    by by apply rfind_last.
  unfold transformed_zip_name, path_stem, path_suffix. rewrite Hr, length_app.
  cbn [length]. rewrite Nat2Z.id. split.
  - intros Hlen.
    replace ((0 <? Z.of_nat (length stem))
             && (Z.of_nat (length stem) <? Z.of_nat (length stem + 4) - 1))
      with true by (symmetry; apply andb_true_iff; split; apply Z.ltb_lt; lia).
    replace (length stem + 4 - 4)%nat with (length stem) by lia.
    rewrite take_app_length, drop_app_length.
    split; [done|]. split.
    + apply is_zip_file_iff. exists (stem ++ lit "_transformed"), a, b, c.
      by rewrite <- app_assoc.
    + intros Heq. apply (f_equal length) in Heq.
      rewrite !length_app in Heq. simpl in Heq. lia.
  - intros Hlen. assert (stem = []) as -> by (destruct stem; [done|simpl in Hlen; lia]).
    cbn [length app]. split; [done|]. cbn [andb Z.ltb Z.compare Z.of_nat].
    destruct Ha as [->| ->], Hb as [->| ->], Hc as [->| ->]; by vm_compute.
Qed.

Lemma transformed_zip_name_keeps_extension_witness :
  is_zip_file (lit "Data.ZIP") = true /\
  transformed_zip_name (lit "Data.ZIP") = lit "Data_transformed.ZIP" /\
  is_zip_file (transformed_zip_name (lit "Data.ZIP")) = true.
Proof.
  split; [reflexivity|].
  destruct (proj1 (transformed_zip_name_keeps_extension (lit "Data.ZIP") eq_refl))
    as (H1 & H2 & _); [vm_compute; lia|].
  split; [exact H1|exact H2].
Defined.

(** ** Whitespace and the parser *)

Lemma lstrip_head s :
  lstrip s = [] \/ exists c r, lstrip s = c :: r /\ is_space c = false.
Proof.
  induction s as [|c s IH]; [by left|]. simpl.
  destruct (is_space c) eqn:Hc; [done|]. right. by exists c, s.
Qed.

Lemma lstrip_fixed s :
  (s = [] \/ exists c r, s = c :: r /\ is_space c = false) -> lstrip s = s.
Proof. intros [->|(c & r & -> & Hc)]; [done|]. simpl. by rewrite Hc. Qed.

Lemma lstrip_idemp s : lstrip (lstrip s) = lstrip s.
Proof. apply lstrip_fixed, lstrip_head. Qed.

Lemma strip_idemp s : strip (strip s) = strip s.
Proof.
  assert (Hr : rstrip (strip s) = strip s).
  { unfold rstrip at 1. rewrite <- (reverse_involutive (strip s)) at 2. f_equal.
    apply lstrip_fixed. unfold strip.
    destruct (lstrip_suffix (rstrip s)) as [a Ha].
    destruct (lstrip (rstrip s)) as [|c t] eqn:Ht; [by left|]. right.
    assert (Hw : reverse (rstrip s) = lstrip (reverse s))
      by (unfold rstrip; apply reverse_involutive).
    rewrite Ha, reverse_app in Hw.
    destruct (reverse (c :: t)) as [|x r] eqn:Hx.
    { apply (f_equal length) in Hx. rewrite length_reverse in Hx. done. }
    exists x, r. split; [done|].
    destruct (lstrip_head (reverse s)) as [Hn|(y & r' & Hy & Hsp)];
      rewrite <- Hw in *; simpl in *; congruence. }
  unfold strip at 1. rewrite Hr. unfold strip. apply lstrip_idemp.
Qed.

Lemma parse_line_strip st raw : parse_line st (strip raw) = parse_line st raw.
Proof. unfold parse_line. by rewrite strip_idemp. Qed.

Lemma fold_parse_line_strip lines st :
  fold_left parse_line (map strip lines) st = fold_left parse_line lines st.
Proof.
  revert st. induction lines as [|raw lines IH]; intros st; [done|].
  simpl. by rewrite parse_line_strip, IH.
Qed.

Lemma fold_parse_line_nonblank lines st :
  fold_left parse_line (List.filter (fun raw => nonblank (strip raw)) lines) st
  = fold_left parse_line lines st.
Proof.
  revert st. induction lines as [|raw lines IH]; intros st; [done|].
  cbn [List.filter]. destruct (nonblank (strip raw)) eqn:Hnb; cbn [fold_left].
  - by rewrite IH.
  - rewrite (parse_line_blank st raw); [by apply IH|]. by destruct (strip raw).
Qed.

(** X10. The result of the parser does not depend on the white space
    around the lines nor on blank lines: stripping every line beforehand,
    or leaving out the lines that are blank, gives the same metadata lines
    and the same data rows. *)
Theorem parse_csv_file_ignores_whitespace lines :
  parse_csv_file (map strip lines) = parse_csv_file lines
  /\ parse_csv_file (List.filter (fun raw => nonblank (strip raw)) lines)
     = parse_csv_file lines.
Proof.
  unfold parse_csv_file, parse_lines.
  by rewrite fold_parse_line_strip, fold_parse_line_nonblank.
Qed.

Lemma lines_after_header_subset lines raw :
  raw ∈ lines_after_header lines -> raw ∈ lines.
Proof.
  induction lines as [|x lines IH]; [done|]. simpl.
  destruct (is_header_line x); intros H; right; [done|by apply IH].
Qed.

Lemma lines_before_header_subset lines raw :
  raw ∈ lines_before_header lines -> raw ∈ lines.
Proof.
  induction lines as [|x lines IH]; [done|]. simpl.
  destruct (is_header_line x); [by intros ?%elem_of_nil|].
  intros [->|H]%elem_of_cons; [by left|right; by apply IH].
Qed.

(** X11. The parser loses nothing of a line it keeps: a data row is the
    list of the fields of a stripped, non-blank line of the input, no
    field holds a [;], and the fields joined with [;] give the stripped
    line back; a metadata line is a stripped line of the input that holds
    a [;]. *)
Theorem parsed_rows_are_input_lines lines :
  (forall row, row ∈ snd (parse_csv_file lines) ->
     exists raw, raw ∈ lines /\ row = split ";" (strip raw) /\
       join (lit ";") row = strip raw /\ strip raw <> [] /\
       Forall no_semicolon row /\ (8 <= length row)%nat)
  /\ (forall line, line ∈ fst (parse_csv_file lines) ->
        exists raw, raw ∈ lines /\ line = strip raw /\ has_semicolon line = true).
Proof.
  rewrite parse_csv_file_spec. cbn [fst snd]. unfold data_lines, semicolon_lines.
  split.
  - intros row [Hin Hlong]%elem_of_filter_In.
    apply list_elem_of_In, in_map_iff in Hin as (line & <- & Hin).
    apply filter_In in Hin as [Hin Hnb].
    apply in_map_iff in Hin as (raw & <- & Hin).
    exists raw. split; [by apply lines_after_header_subset, list_elem_of_In|].
    split; [done|]. split; [apply join_split|].
    split; [by destruct (strip raw)|].
    split; [apply split_no_semicolon|by apply Nat.leb_le].
  - intros line [Hin Hsemi]%elem_of_filter_In.
    apply list_elem_of_In, in_map_iff in Hin as (raw & <- & Hin).
    exists raw. split; [by apply lines_before_header_subset, list_elem_of_In|done].
Qed.

Lemma is_header_line_before before :
  Forall (fun raw => is_header_line raw = false) before ->
  forall after,
    lines_before_header (before ++ after) = before ++ lines_before_header after /\
    lines_after_header (before ++ after) = lines_after_header after.
Proof.
  induction 1 as [|raw before Hraw _ IH]; intros after; [done|].
  simpl. rewrite Hraw. by destruct (IH after) as [-> ->].
Qed.

(** X12. The first line that holds a [;] and the three substrings of the
    header divides the input: the metadata lines are the stripped lines
    before it that hold a [;], the data rows are the non-blank lines
    behind it that have 8 fields or more, and a further header line
    behind it is read as a data line. *)
Theorem first_header_divides_input before header after :
  Forall (fun raw => is_header_line raw = false) before ->
  is_header_line header = true ->
  parse_csv_file (before ++ header :: after)
  = (List.filter has_semicolon (map strip before),
     List.filter long_enough
       (map (split ";") (List.filter nonblank (map strip after)))).
Proof.
  intros Hb Hh. rewrite parse_csv_file_spec. unfold semicolon_lines, data_lines.
  destruct (is_header_line_before _ Hb (header :: after)) as [-> ->].
  simpl. rewrite Hh. by rewrite app_nil_r.
Qed.

Lemma first_header_divides_input_witness :
  Forall (fun raw => is_header_line raw = false) [lit "SPECIES_LU_VERSION;3.2"; lit "note"] /\
  is_header_line new_header = true /\
  parse_csv_file ([lit "SPECIES_LU_VERSION;3.2"; lit "note"] ++ new_header
                  :: [new_header; lit "1;Alpha;Genus1;sp1;AuthorA;WAHR;1;Alpha"])
  = ([lit "SPECIES_LU_VERSION;3.2"],
     [split ";" new_header; split ";" (lit "1;Alpha;Genus1;sp1;AuthorA;WAHR;1;Alpha")]).
Proof.
  assert (H : Forall (fun raw => is_header_line raw = false)
                [lit "SPECIES_LU_VERSION;3.2"; lit "note"])
    by (by repeat constructor).
  split; [exact H|]. split; [reflexivity|].
  rewrite (first_header_divides_input _ new_header _ H eq_refl).
  vm_compute. reflexivity.
Defined.

(** ** The output read again *)

Lemma field_converted_py_int f g :
  field_converted f g -> is_ok (py_int g) = is_ok (py_int f).
Proof. by intros [->|[[-> ->]|[-> ->]]]. Qed.

(** X13. The transformation is not its own inverse nor idempotent on
    rows: a line of the output, split again and read as a row of the old
    layout, has the valid name where the old layout has the valid
    identifier, so the second loop keeps it exactly when the valid name
    parses as an integer. *)
Theorem emitted_row_read_again lines tape t tape' new_row :
  transform_species_csv lines tape = Some (Ok t, tape') ->
  new_row ∈ transformed_rows t ->
  exists valid_name,
    new_row !! 6%nat = Some valid_name /\
    kept (split ";" (convert_booleans (join (lit ";") new_row)))
    = is_ok (py_int valid_name).
Proof.
  intros Hrun Hin.
  destruct (transformed_rows_ids _ _ _ _ _ Hrun Hin)
    as (Hall & a1 & a2 & a3 & a4 & a6 & o & v & no & nv & -> & _ & _ & Hno & _).
  exists a6. split; [done|].
  destruct (boolean_conversion_by_fields _ Hall) as (_ & _ & Hhead & H2 & Hsplit).
  rewrite Hsplit by done.
  destruct (convert_boolean_fields _) as [|o0 out]; [by inversion H2|].
  injection Hhead as ->.
  do 9 (let f := fresh "o" in let H := fresh "Hc" in
        inversion H2 as [|? f ? ? H H2']; subst; clear H2; rename H2' into H2).
  inversion H2; subst. unfold kept. rewrite row_ids_long.
  rewrite (py_int_new_id no Hno). cbn [length Nat.leb andb rbind].
  match goal with
  | H : field_converted a6 ?g |- _ =>
      rewrite <- (field_converted_py_int a6 g H); by destruct (py_int g)
  end.
Qed.

Lemma emitted_row_read_again_witness :
  exists t new_row,
    transform_species_csv ex_lines ex_tape = Some (Ok t, []) /\
    new_row ∈ transformed_rows t /\
    kept (split ";" (convert_booleans (join (lit ";") new_row))) = false.
Proof.
  eexists _, _. split; [vm_compute; reflexivity|].
  split; [apply list_elem_of_here|].
  destruct (emitted_row_read_again ex_lines ex_tape _ [] _ eq_refl
              (list_elem_of_here _ _)) as (name & Hname & Hk).
  etrans; [exact Hk|]. injection Hname as <-. reflexivity.
Defined.

(** ** The metadata key *)

(** X14. On a line that holds a [;] the renaming of the key is stable:
    the rewritten line no longer begins with SPECIES_LU_VERSION, it still
    holds a [;], and rewriting it again changes nothing. *)
Theorem update_metadata_line_stable line :
  has_semicolon line = true ->
  startswith (lit "SPECIES_LU_VERSION") (update_metadata_line line) = false
  /\ has_semicolon (update_metadata_line line) = true
  /\ update_metadata_line (update_metadata_line line) = update_metadata_line line.
Proof.
  intros Hsemi.
  assert (H : startswith (lit "SPECIES_LU_VERSION") (update_metadata_line line) = false
              /\ has_semicolon (update_metadata_line line) = true).
  { unfold update_metadata_line.
    destruct (startswith (lit "SPECIES_LU_VERSION") line) eqn:Hkey; [|done].
    destruct (split1_semicolon _ Hsemi) as (key & value & _ & _ & ->).
    by vm_compute. }
  destruct H as [Hk Hs]. split; [done|]. split; [done|].
  unfold update_metadata_line at 1. by rewrite Hk.
Qed.

Lemma update_metadata_line_stable_witness :
  has_semicolon (lit "SPECIES_LU_VERSION;3.2") = true /\
  update_metadata_line (update_metadata_line (lit "SPECIES_LU_VERSION;3.2"))
  = update_metadata_line (lit "SPECIES_LU_VERSION;3.2").
Proof.
  split; [reflexivity|].
  apply (update_metadata_line_stable (lit "SPECIES_LU_VERSION;3.2")). reflexivity.
Defined.

(** ** Every input has a run *)

(** X15. For an input of fewer than [max_val / 2] lines there are draws
    on which the whole transformation returns its output, and no run, on
    whatever draws, ends with an exception. *)
Theorem transform_species_csv_returns lines :
  2 * Z.of_nat (length lines) < max_val ->
  (exists tape t, transform_species_csv lines tape = Some (Ok t, []))
  /\ (forall tape r tape', transform_species_csv lines tape = Some (r, tape') ->
        exists t, r = Ok t).
Proof.
  intros Hlen. split.
  - pose proof (data_rows_length lines) as Hrows.
    destruct (first_pass_runs id_init (snd (parse_csv_file lines)))
      as (tape & st & Hrun).
    { cbn [id_init used_ids]. rewrite size_empty. lia. }
    pose proof Hrun as (? & [= <-] & _ & Hcov)%first_pass_covers.
    destruct (transform_rows_covered _ _ Hcov) as [out Hout].
    exists tape. unfold transform_species_csv.
    destruct (parse_csv_file lines) as [metadata rows]. cbn [snd] in *.
    eexists. unfold bind. rewrite Hrun, Hout. reflexivity.
  - intros tape r tape' (st & out & _ & _ & ->)%transform_species_csv_Some. eauto.
Qed.

Lemma transform_species_csv_returns_witness :
  exists tape t, transform_species_csv ex_lines tape = Some (Ok t, []).
Proof.
  apply (transform_species_csv_returns ex_lines). reflexivity.
Defined.
